(** * CSUN Location Quiz: a shallow embedding of [script.js]

    The quiz shows five campus buildings in turn; the player double-clicks
    the map, the click is tested against the building's rectangle, and the
    round is timed against a best time kept in [localStorage].

    The embedding follows the source function by function.  JavaScript
    numbers that hold coordinates, and the best time parsed out of the
    store, are IEEE 754 binary64 values ([spec_float] with precision 53
    and exponent bound 1024).  The counters, the clock readings and the
    seconds computed from them are integers of type [Z]: they stand for
    JavaScript's safe integers (magnitude up to 2^53 - 1), on which the
    arithmetic of the program is exact.  Strings are sequences of code
    units below 256.  Module-level mutable state ([state], [currentRect],
    [clickMarker]) and the browser's [localStorage] are threaded
    explicitly through a [World] record.  Writes to the page (jQuery
    [text], the toast, the interval callback that redraws the clock) and
    the rendering of overlays never feed back into that state and are
    left out. *)

From Stdlib Require Import ZArith Bool Ascii String List Lia.
From Stdlib Require Import Floats.SpecFloat.
From stdpp Require Import base option gmap strings.

Open Scope Z_scope.

(** ** JavaScript numbers *)

Module Js.

Abbreviation number := spec_float.

Definition prec : Z := 53.
Definition emax : Z := 1024.

Definition NaN : number := S754_nan.
Definition Infinity : number := S754_infinity false.
Definition pos_zero : number := S754_zero false.
Definition neg_zero : number := S754_zero true.

(** The binary64 value of an integer, rounded to nearest-even. *)
Definition of_Z (z : Z) : number := binary_normalize prec emax z 0 false.

(** The decimal literal [m / 10^k]: both operands are exact in the
    literals of this program, so the correctly rounded quotient is the
    value the JavaScript reader assigns to the literal. *)
Definition decimal (m : Z) (k : Z) : number :=
  SFdiv prec emax (of_Z m) (of_Z (10 ^ k)).

Definition neg (x : number) : number := SFopp x.

Definition isNaN (x : number) : bool :=
  match x with S754_nan => true | _ => false end.

(** [Number.isFinite] on a number. *)
Definition isFinite (x : number) : bool :=
  match x with
  | S754_zero _ | S754_finite _ _ _ => true
  | S754_infinity _ | S754_nan => false
  end.

(** The abstract operation IsLessThan of ECMAScript on two numbers:
    [None] is its "undefined" answer, given when an operand is NaN. *)
Definition IsLessThan (x y : number) : option bool :=
  match SFcompare x y with
  | None => None
  | Some Lt => Some true
  | Some _ => Some false
  end.

(** [x < y], [x > y], [x <= y], [x >= y], [x === y] on numbers. *)
Definition lt (x y : number) : bool :=
  match IsLessThan x y with Some true => true | _ => false end.
Definition gt (x y : number) : bool :=
  match IsLessThan y x with Some true => true | _ => false end.
Definition le (x y : number) : bool :=
  match IsLessThan y x with Some false => true | _ => false end.
Definition ge (x y : number) : bool :=
  match IsLessThan x y with Some false => true | _ => false end.
Definition strict_eq (x y : number) : bool := SFeqb x y.

(** The integers up to this bound are binary64 values, and arithmetic
    on them is exact. *)
Definition MAX_SAFE_INTEGER : Z := 2 ^ 53 - 1.

(** The integer a number stands for, when it is one. *)
Definition to_Z (x : number) : option Z :=
  match x with
  | S754_zero _ => Some 0
  | S754_finite s m e =>
      let signed (z : Z) := if s then - z else z in
      if 0 <=? e then Some (signed (Z.pos m * 2 ^ e))
      else if Z.pos m mod 2 ^ (- e) =? 0
           then Some (signed (Z.pos m / 2 ^ (- e)))
           else None
  | S754_infinity _ | S754_nan => None
  end.

(** One round of the loop of [Math.max]: +0 counts as larger than -0. *)
Definition max_step (highest x : number) : number :=
  match x, highest with
  | S754_zero false, S754_zero true => pos_zero
  | _, _ => if gt x highest then x else highest
  end.

Definition min_step (lowest x : number) : number :=
  match x, lowest with
  | S754_zero true, S754_zero false => neg_zero
  | _, _ => if lt x lowest then x else lowest
  end.

(** [Math.max(a, b)] and [Math.min(a, b)]: NaN if either is NaN. *)
Definition Math_max (a b : number) : number :=
  if isNaN a || isNaN b then NaN
  else max_step (max_step (S754_infinity true) a) b.

Definition Math_min (a b : number) : number :=
  if isNaN a || isNaN b then NaN
  else min_step (min_step (S754_infinity false) a) b.

(** A value that may be a number or [undefined]; the relational
    operators apply ToNumber to their operands. *)
Inductive value :=
| Undefined
| Num (x : number).

Definition ToNumber (v : value) : number :=
  match v with
  | Undefined => NaN
  | Num x => x
  end.

Definition vle (a b : value) : bool := le (ToNumber a) (ToNumber b).
Definition vge (a b : value) : bool := ge (ToNumber a) (ToNumber b).

(** *** Strings and numbers

    [ToString] is [String(n)] for a safe integer [n]: an optional minus
    sign and all the decimal digits of [n]. *)

Definition digit_char (d : Z) : ascii := ascii_of_nat (48 + Z.to_nat d).

Fixpoint digits_of (fuel : nat) (n : Z) (acc : string) : string :=
  match fuel with
  | O => acc
  | S fuel' =>
      let acc' := String (digit_char (n mod 10)) acc in
      if n <? 10 then acc' else digits_of fuel' (n / 10) acc'
  end.

Definition digits (n : Z) : string :=
  digits_of (S (Z.to_nat (Z.log2 n))) n EmptyString.

Definition ToString (n : Z) : string :=
  if n <? 0 then String "-" (digits (- n)) else digits n.

(** [s.padStart(target, fill)]. *)
Fixpoint filler (n : nat) (fill cur : string) : string :=
  match n with
  | O => EmptyString
  | S n' =>
      match cur with
      | String c rest => String c (filler n' fill rest)
      | EmptyString =>
          match fill with
          | String c rest => String c (filler n' fill rest)
          | EmptyString => EmptyString
          end
      end
  end.

Definition padStart (target : nat) (fill s : string) : string :=
  let len := String.length s in
  if (target <=? len)%nat then s
  else (filler (target - len) fill fill ++ s)%string.

(** [Number(s)] on a string: the StringNumericLiteral grammar.  White
    space is TAB, LF, VT, FF, CR, SP and NBSP. *)
Definition is_ws (c : ascii) : bool :=
  let n := nat_of_ascii c in
  ((9 <=? n)%nat && (n <=? 13)%nat) || (n =? 32)%nat || (n =? 160)%nat.

Fixpoint trim_start (s : string) : string :=
  match s with
  | String c r => if is_ws c then trim_start r else s
  | EmptyString => EmptyString
  end.

Fixpoint trim_end (s : string) : string :=
  match s with
  | String c r =>
      match trim_end r with
      | EmptyString => if is_ws c then EmptyString else String c EmptyString
      | r' => String c r'
      end
  | EmptyString => EmptyString
  end.

Definition digit_val (base : Z) (c : ascii) : option Z :=
  let n := Z.of_nat (nat_of_ascii c) in
  let d :=
    if (48 <=? n) && (n <=? 57) then n - 48
    else if (97 <=? n) && (n <=? 102) then n - 87
    else if (65 <=? n) && (n <=? 70) then n - 55
    else base in
  if d <? base then Some d else None.

(** Reads the longest run of digits in [base] at the head of [s]:
    the accumulated value, the number of digits read, and the rest. *)
Fixpoint read_digits (base : Z) (s : string) (acc : Z) (cnt : Z)
  : Z * Z * string :=
  match s with
  | String c r =>
      match digit_val base c with
      | Some d => read_digits base r (base * acc + d) (cnt + 1)
      | None => (acc, cnt, s)
      end
  | EmptyString => (acc, cnt, s)
  end.

(** The binary64 value nearest to [m * 10^e], for [m >= 0]: the integer
    rounded once, or the quotient of two exact integers rounded once. *)
Definition of_decimal (m e : Z) : number :=
  match m with
  | Zpos p =>
      if 0 <=? e then of_Z (m * 10 ^ e)
      else SFdiv prec emax (S754_finite false p 0)
                           (S754_finite false (Z.to_pos (10 ^ (- e))) 0)
  | _ => pos_zero
  end.

(** ExponentPart, if any, then the end of the string. *)
Definition read_exponent (s : string) : option Z :=
  match s with
  | EmptyString => Some 0
  | String c r =>
      if (Ascii.eqb c "e" || Ascii.eqb c "E")%bool then
        let '(sign, r') :=
          match r with
          | String "+" r' => (1, r')
          | String "-" r' => (-1, r')
          | _ => (1, r)
          end in
        match read_digits 10 r' 0 0 with
        | (v, cnt, EmptyString) => if 0 <? cnt then Some (sign * v) else None
        | _ => None
        end
      else None
  end.

(** StrUnsignedDecimalLiteral. *)
Definition unsigned_decimal (s : string) : number :=
  if String.eqb s "Infinity" then Infinity
  else
    let '(ip, ni, r1) := read_digits 10 s 0 0 in
    let '(m, nf, r2) :=
      match r1 with
      | String "." r => read_digits 10 r ip 0
      | _ => (ip, 0, r1)
      end in
    if 0 <? ni + nf then
      match read_exponent r2 with
      | Some e => of_decimal m (e - nf)
      | None => NaN
      end
    else NaN.

(** NonDecimalIntegerLiteral: the digits after [0x], [0o] or [0b]. *)
Definition non_decimal (base : Z) (s : string) : number :=
  match read_digits base s 0 0 with
  | (v, cnt, EmptyString) => if 0 <? cnt then of_Z v else NaN
  | _ => NaN
  end.

Definition Number (raw : string) : number :=
  match trim_end (trim_start raw) with
  | EmptyString => pos_zero
  | String "0" (String "x" r) | String "0" (String "X" r) => non_decimal 16 r
  | String "0" (String "o" r) | String "0" (String "O" r) => non_decimal 8 r
  | String "0" (String "b" r) | String "0" (String "B" r) => non_decimal 2 r
  | String "+" r => unsigned_decimal r
  | String "-" r => neg (unsigned_decimal r)
  | s => unsigned_decimal s
  end.

End Js.

Coercion Js.Num : Js.number >-> Js.value.

(** ** Bounds logic *)

Record Bounds := mkBounds {
  north : Js.number;
  south : Js.number;
  east : Js.number;
  west : Js.number
}.

(** A [google.maps.LatLng]: its [lat()] and [lng()] readings. *)
Record LatLng := mkLatLng {
  lat : Js.value;
  lng : Js.value
}.

Definition normalizeBounds (b : Bounds) : Bounds :=
  {| north := Js.Math_max (north b) (south b);
     south := Js.Math_min (north b) (south b);
     east := Js.Math_max (east b) (west b);
     west := Js.Math_min (east b) (west b) |}.

Definition pointInBounds (latLng : LatLng) (b : Bounds) : bool :=
  let bb := normalizeBounds b in
  let lat := lat latLng in
  let lng := lng latLng in
  Js.vle lat (north bb) &&
  Js.vge lat (south bb) &&
  Js.vle lng (east bb) &&
  Js.vge lng (west bb).


(** ** Game constants *)

Definition TOTAL_QUESTIONS : Z := 5.
Definition BEST_KEY : string := "csun_map_quiz_best_seconds".

Record Location := mkLocation {
  name : string;
  bounds : Bounds
}.

Definition LOCATIONS : list Location :=
  [ {| name := "Black House";
       bounds := {| north := Js.decimal 34244278 6;
                    south := Js.decimal 34244069 6;
                    east := Js.neg (Js.decimal 118533368 6);
                    west := Js.neg (Js.decimal 118533626 6) |} |};
    {| name := "Chaparral Hall";
       bounds := {| north := Js.decimal 34238634 6;
                    south := Js.decimal 34237832 6;
                    east := Js.neg (Js.decimal 118526679 6);
                    west := Js.neg (Js.decimal 118527306 6) |} |};
    {| name := "Matador Track Stadium";
       bounds := {| north := Js.decimal 34247868 6;
                    south := Js.decimal 34246043 6;
                    east := Js.neg (Js.decimal 118525570 6);
                    west := Js.neg (Js.decimal 11852730 5) |} |};
    {| name := "Sierra Hall";
       bounds := {| north := Js.decimal 34238561 6;
                    south := Js.decimal 34238056 6;
                    east := Js.neg (Js.decimal 118529978 6);
                    west := Js.neg (Js.decimal 118531517 6) |} |};
    {| name := "Bookstein Hall";
       bounds := {| north := Js.decimal 34242471 6;
                    south := Js.decimal 34241471 6;
                    east := Js.neg (Js.decimal 118529919 6);
                    west := Js.neg (Js.decimal 118531159 6) |} |} ].

(** [LOCATIONS[i]]: [None] stands for [undefined]. *)
Definition location_at (i : Z) : option Location :=
  if i <? 0 then None else LOCATIONS !! Z.to_nat i.

(** ** The state of the page *)

(** The feedback rectangle: its bounds and whether it is drawn in the
    colour of a correct guess. *)
Record Rectangle := mkRectangle {
  rect_bounds : Bounds;
  rect_correct : bool
}.

Record World := mkWorld {
  index : Z;                          (* state.index *)
  correct : Z;                        (* state.correct *)
  startedAtMs : option Z;             (* state.startedAtMs *)
  timerId : option positive;          (* state.timerId *)
  currentRect : option Rectangle;
  clickMarker : option LatLng;
  localStorage : gmap string string;
  intervals : gset positive;          (* handles of the live intervals *)
  nextHandle : positive               (* the handle setInterval gives next *)
}.

Definition set_index (i : Z) (w : World) : World :=
  mkWorld i (correct w) (startedAtMs w) (timerId w) (currentRect w)
          (clickMarker w) (localStorage w) (intervals w) (nextHandle w).

Definition set_correct (c : Z) (w : World) : World :=
  mkWorld (index w) c (startedAtMs w) (timerId w) (currentRect w)
          (clickMarker w) (localStorage w) (intervals w) (nextHandle w).

Definition set_feedback (r : option Rectangle) (m : option LatLng)
    (w : World) : World :=
  mkWorld (index w) (correct w) (startedAtMs w) (timerId w) r m
          (localStorage w) (intervals w) (nextHandle w).

Definition set_localStorage (ls : gmap string string) (w : World) : World :=
  mkWorld (index w) (correct w) (startedAtMs w) (timerId w) (currentRect w)
          (clickMarker w) ls (intervals w) (nextHandle w).

(** The module as loaded: the literal [state] object and no overlays.
    [localStorage] outlives the page. *)
Definition initial (ls : gmap string string) : World :=
  mkWorld 0 0 None None None None ls empty 1%positive.

(** ** Visual feedback *)

Definition clearFeedback (w : World) : World := set_feedback None None w.

Definition drawFeedback (clickedLatLng : LatLng) (b : Bounds)
    (isCorrect : bool) (w : World) : World :=
  let w := clearFeedback w in
  let bb := normalizeBounds b in
  set_feedback (Some (mkRectangle bb isCorrect)) (Some clickedLatLng) w.

(** ** Timer and high score

    [now] is what [Date.now()] returns while the function runs. *)

Definition stopTimer (w : World) : World :=
  mkWorld (index w) (correct w) (startedAtMs w) None (currentRect w)
          (clickMarker w) (localStorage w)
          (match timerId w with
           | Some h => intervals w ∖ {[ h ]}
           | None => intervals w
           end)
          (nextHandle w).

Definition startTimer (now : Z) (w : World) : World :=
  let w := stopTimer w in
  mkWorld (index w) (correct w) (Some now) (Some (nextHandle w))
          (currentRect w) (clickMarker w) (localStorage w)
          ({[ nextHandle w ]} ∪ intervals w) (Pos.succ (nextHandle w)).

Definition elapsedSeconds (now : Z) (w : World) : Z :=
  match startedAtMs w with
  | None => 0
  | Some t => if t =? 0 then 0 else (now - t) / 1000
  end.

Definition formatTime (totalSeconds : Z) : string :=
  let mm := Js.padStart 2 "0" (Js.ToString (totalSeconds / 60)) in
  let ss := Js.padStart 2 "0" (Js.ToString (Z.rem totalSeconds 60)) in
  (mm ++ ":" ++ ss)%string.

(** [None] stands for [null]. *)
Definition getBestSeconds (w : World) : option Js.number :=
  match localStorage w !! BEST_KEY with
  | None => None
  | Some raw =>
      if String.eqb raw "" then None
      else
        let n := Js.Number raw in
        if Js.isFinite n then Some n else None
  end.

Definition setBestSeconds (seconds : Z) (w : World) : World :=
  set_localStorage (<[ BEST_KEY := Js.ToString seconds ]> (localStorage w)) w.

(** ** The round *)

(** [best == null || seconds < best] *)
Definition beats (seconds : Z) (best : option Js.number) : bool :=
  match best with
  | None => true
  | Some b => Js.lt (Js.of_Z seconds) b
  end.

Definition finishGame (now : Z) (w : World) : World :=
  let w := stopTimer w in
  let seconds := elapsedSeconds now w in
  let best := getBestSeconds w in
  if beats seconds best then setBestSeconds seconds w else w.

Definition resetGame (now : Z) (w : World) : World :=
  let w := clearFeedback w in
  let w := set_index 0 w in
  let w := set_correct 0 w in
  startTimer now w.

Definition handleAnswer (latLng : LatLng) (now : Z) (w : World) : World :=
  match location_at (index w) with
  | None => w
  | Some loc =>
      let isCorrect := pointInBounds latLng (bounds loc) in
      let w := if isCorrect then set_correct (correct w + 1) w else w in
      let w := drawFeedback latLng (bounds loc) isCorrect w in
      let w := set_index (index w + 1) w in
      if index w >=? TOTAL_QUESTIONS then finishGame now w else w
  end.

(** The events the page reacts to: the reset button and a double click
    on the map, each with the clock reading at that moment. *)
Inductive Event :=
| Reset (now : Z)
| Guess (latLng : LatLng) (now : Z).

Definition step (w : World) (e : Event) : World :=
  match e with
  | Reset now => resetGame now w
  | Guess latLng now => handleAnswer latLng now w
  end.

Definition run (w : World) (es : list Event) : World := fold_left step es w.

(** The phases of a round, read off the state: the round is over once
    every question has been answered, and has not begun while no start
    time is recorded. *)
Inductive Phase := Idle | Running | Finished.

Definition phase (w : World) : Phase :=
  if index w >=? TOTAL_QUESTIONS then Finished
  else match startedAtMs w with
       | None => Idle
       | Some _ => Running
       end.

(** ** Vocabulary of the specification *)

(** A box all of whose four coordinates are finite numbers. *)
Definition finite_box (b : Bounds) : bool :=
  Js.isFinite (north b) && Js.isFinite (south b) &&
  Js.isFinite (east b) && Js.isFinite (west b).

(** The same box with its north and south, or east and west, exchanged. *)
Definition swap_north_south (b : Bounds) : Bounds :=
  {| north := south b; south := north b; east := east b; west := west b |}.

Definition swap_east_west (b : Bounds) : Bounds :=
  {| north := north b; south := south b; east := west b; west := east b |}.

(** [south <= lat <= north] and [west <= lng <= east] on a box that has
    been normalized already. *)
Definition within (p : LatLng) (bb : Bounds) : Prop :=
  Js.vle (south bb) (lat p) = true /\ Js.vle (lat p) (north bb) = true /\
  Js.vle (west bb) (lng p) = true /\ Js.vle (lng p) (east bb) = true.

(** A coordinate that is [undefined] or NaN. *)
Definition missing (v : Js.value) : Prop := Js.isNaN (Js.ToNumber v) = true.

(** The mantissa and exponent of a positive safe integer as a binary64
    number: the integer shifted left until it has 53 digits. *)
Definition aligned (p : positive) : positive * Z :=
  shl_align p 0 (Z.pos (digits2_pos p) - 53).

(** Strings made of decimal digits only. *)
Definition is_digit (c : ascii) : bool :=
  match Js.digit_val 10 c with Some _ => true | None => false end.

Fixpoint all_digits (s : string) : bool :=
  match s with
  | EmptyString => true
  | String c r => is_digit c && all_digits r
  end.

(** A number below 100 written with exactly two decimal digits. *)
Definition two_digits (n : Z) : string :=
  String (Js.digit_char (n / 10)) (String (Js.digit_char (n mod 10)) "").

(** The rendering the specification words describe, with the minutes
    wrapping at 60 as the seconds do. *)
Definition format_wrapped (seconds : Z) : string :=
  (two_digits ((seconds / 60) mod 60) ++ ":" ++ two_digits (seconds mod 60))%string.

(** The guesses of a round, as events. *)
Definition guesses (gs : list (LatLng * Z)) : list Event :=
  map (fun g => Guess (fst g) (snd g)) gs.

(** How many of the guesses fall inside the rectangle of the location
    they answer: the first guess answers [locs]'s first location, the
    second the next, and so on. *)
Fixpoint contained (gs : list (LatLng * Z)) (locs : list Location) : Z :=
  match gs, locs with
  | g :: gs', loc :: locs' =>
      (if pointInBounds (fst g) (bounds loc) then 1 else 0) + contained gs' locs'
  | _, _ => 0
  end.

(** The invariant of the quiz state. *)
Definition Inv (w : World) : Prop :=
  0 <= correct w /\ correct w <= index w /\ index w <= TOTAL_QUESTIONS.

(** A round of five guesses used as a running example: a click inside
    the first rectangle, then four clicks elsewhere. *)
Definition sample_round : list (LatLng * Z) :=
  [ (mkLatLng (Js.decimal 342441 4) (Js.neg (Js.decimal 1185335 4)), 3000);
    (mkLatLng (Js.of_Z 0) (Js.of_Z 0), 5000);
    (mkLatLng Js.Undefined (Js.of_Z 7), 8000);
    (mkLatLng (Js.decimal 34247 3) (Js.neg (Js.decimal 118526 3)), 9000);
    (mkLatLng (Js.of_Z 34) (Js.neg (Js.of_Z 118)), 12500) ].

(** A page whose round started at time 1000 with a best time of 8
    seconds in store. *)
Definition sample_page : World :=
  startTimer 1000 (initial {[ BEST_KEY := "8"%string ]}).

(** The boxes and points of the scenarios. *)
Definition point_of (la lo : Z) : LatLng := mkLatLng (Js.of_Z la) (Js.of_Z lo).

Definition ordered_box : Bounds :=
  {| north := Js.of_Z 10; south := Js.of_Z 5;
     east := Js.neg (Js.of_Z 100); west := Js.neg (Js.of_Z 105) |}.

Definition reversed_box : Bounds :=
  {| north := Js.of_Z 5; south := Js.of_Z 10;
     east := Js.neg (Js.of_Z 105); west := Js.neg (Js.of_Z 100) |}.

(** ** The page: document, toast and listeners

    The functions of the script once more, this time with what they
    write to the page.  What they do to the state is done by the
    functions above, applied to the [world] of the page. *)

Module Ui.

(** The text of an element.  [BestText best] is the text [renderBest]
    writes for the best time it reads: a dash for [null], and
    [formatTime(best)] for a number. *)
Inductive Text :=
| Plain (s : string)
| BestText (best : option Js.number).

Record Page := mkPage {
  world : World;
  dom : gmap string Text;     (* the text of the elements, by id *)
  toastShown : bool;          (* #toast carries the class "show" *)
  toastPending : bool;        (* a timeout that hides the toast is pending *)
  listening : bool            (* the listeners of initMap are registered *)
}.

Definition on_world (f : World -> World) (p : Page) : Page :=
  mkPage (f (world p)) (dom p) (toastShown p) (toastPending p) (listening p).

(** [$("#id").text(t)], and [el.textContent = t] behind [if (!el) return]:
    nothing happens when the document has no such element. *)
Definition set_text (id : string) (t : Text) (p : Page) : Page :=
  match dom p !! id with
  | Some _ =>
      mkPage (world p) (<[ id := t ]> (dom p)) (toastShown p)
             (toastPending p) (listening p)
  | None => p
  end.

Definition showToast (msg : string) (p : Page) : Page :=
  let shown := match dom p !! "toast"%string with
               | Some _ => true
               | None => toastShown p
               end in
  let p := set_text "toast" (Plain msg) p in
  mkPage (world p) (dom p) shown true (listening p).

Definition renderBest (p : Page) : Page :=
  set_text "best" (BestText (getBestSeconds (world p))) p.

Definition setPrompt (p : Page) : Page :=
  set_text "promptText"
           (Plain (match location_at (index (world p)) with
                   | Some q => name q
                   | None => "Done"%string
                   end)) p.

Definition updateHeader (p : Page) : Page :=
  let p := set_text "qCount"
             (Plain (Js.ToString (index (world p) + 1) ++ " / 5")%string) p in
  set_text "score" (Plain (Js.ToString (correct (world p)))) p.

Definition startTimer (now : Z) (p : Page) : Page :=
  let p := on_world (startTimer now) p in
  set_text "timer" (Plain "00:00") p.

Definition finishGame (now : Z) (p : Page) : Page :=
  let p := on_world stopTimer p in
  let seconds := elapsedSeconds now (world p) in
  let best := getBestSeconds (world p) in
  let summary :=
    ("Finished: " ++ Js.ToString (correct (world p)) ++ "/5 in "
     ++ formatTime seconds)%string in
  let p :=
    if beats seconds best then
      let p := on_world (setBestSeconds seconds) p in
      let p := renderBest p in
      showToast (summary ++ " (NEW BEST)")%string p
    else showToast summary p in
  let p := set_text "promptText"
             (Plain ("Done. You got " ++ Js.ToString (correct (world p))
                     ++ " out of 5 correct.")%string) p in
  set_text "qCount" (Plain "5 / 5") p.

Definition resetGame (now : Z) (p : Page) : Page :=
  let p := on_world clearFeedback p in
  let p := on_world (set_index 0) p in
  let p := on_world (set_correct 0) p in
  let p := startTimer now p in
  let p := updateHeader p in
  let p := setPrompt p in
  showToast "Game started. Double-click the correct building." p.

Definition handleAnswer (latLng : LatLng) (now : Z) (p : Page) : Page :=
  match location_at (index (world p)) with
  | None => p
  | Some loc =>
      let isCorrect := pointInBounds latLng (bounds loc) in
      let p := if isCorrect
               then on_world (set_correct (correct (world p) + 1)) p
               else p in
      let p := on_world (drawFeedback latLng (bounds loc) isCorrect) p in
      let p := showToast (if isCorrect then "Correct!" else "Wrong!") p in
      let p := on_world (fun w => set_index (index w + 1) w) p in
      if index (world p) >=? TOTAL_QUESTIONS then finishGame now p
      else setPrompt (updateHeader p)
  end.

(** [initMap]: without the map container nothing is started and no
    listener is registered. *)
Definition register_listeners (p : Page) : Page :=
  mkPage (world p) (dom p) (toastShown p) (toastPending p) true.

Definition initMap (now : Z) (p : Page) : Page :=
  let p := renderBest p in
  match dom p !! "map"%string with
  | None => p
  | Some _ =>
      let p := resetGame now p in
      register_listeners p
  end.

(** The document as loaded, before [initMap] runs. *)
Definition loaded (ls : gmap string string) (d : gmap string Text) : Page :=
  mkPage (initial ls) d false false false.

(** What happens on the page: a click on the reset button, a double
    click on the map, a turn of the interval that redraws the clock, and
    the timeout that hides the toast. *)
Inductive Event :=
| Click (now : Z)
| DblClick (latLng : LatLng) (now : Z)
| Tick (now : Z)
| ToastTimeout.

Definition dispatch (p : Page) (e : Event) : Page :=
  match e with
  | Click now => if listening p then resetGame now p else p
  | DblClick latLng now =>
      if listening p then handleAnswer latLng now p else p
  | Tick now =>
      if decide (intervals (world p) = empty) then p
      else set_text "timer"
             (Plain (formatTime (elapsedSeconds now (world p)))) p
  | ToastTimeout =>
      if toastPending p
      then mkPage (world p) (dom p) false false (listening p)
      else p
  end.

Definition run (p : Page) (es : list Event) : Page := fold_left dispatch es p.

End Ui.

(** ** Vocabulary of the further properties *)

(** A position of a number in the order of the numbers: its class
    (minus infinity, negative, zero, positive, plus infinity), then the
    exponent and the mantissa, both negated for a negative number.  NaN
    has no place in the order; its key is never looked at. *)
Definition key (x : Js.number) : Z * Z * Z :=
  match x with
  | S754_infinity true => (-2, 0, 0)
  | S754_finite true m e => (-1, - e, - Z.pos m)
  | S754_zero _ => (0, 0, 0)
  | S754_finite false m e => (1, e, Z.pos m)
  | S754_infinity false => (2, 0, 0)
  | S754_nan => (3, 0, 0)
  end.

Definition key_lt (k1 k2 : Z * Z * Z) : Prop :=
  let '(c1, e1, m1) := k1 in
  let '(c2, e2, m2) := k2 in
  c1 < c2 \/ (c1 = c2 /\ (e1 < e2 \/ (e1 = e2 /\ m1 < m2))).

Definition key_le (k1 k2 : Z * Z * Z) : Prop := key_lt k1 k2 \/ k1 = k2.

(** A box whose edges are given in order. *)
Definition ordered (b : Bounds) : Prop :=
  Js.ge (north b) (south b) = true /\ Js.ge (east b) (west b) = true.

(** A box one of whose edges is NaN. *)
Definition nan_edged (b : Bounds) : bool :=
  Js.isNaN (north b) || Js.isNaN (south b) ||
  Js.isNaN (east b) || Js.isNaN (west b).

(** A coordinate that is a finite number. *)
Definition finite_coordinate (v : Js.value) : Prop :=
  exists x, v = Js.Num x /\ Js.isFinite x = true.

(** Two boxes with a gap between them: one lies wholly north, or wholly
    east, of the other. *)
Definition separated (b1 b2 : Bounds) : bool :=
  let n1 := normalizeBounds b1 in
  let n2 := normalizeBounds b2 in
  Js.lt (north n1) (south n2) || Js.lt (north n2) (south n1) ||
  Js.lt (east n1) (west n2) || Js.lt (east n2) (west n1).

(** A round in which every click falls on the same point. *)
Definition same_spot (p : LatLng) (times : list Z) : list (LatLng * Z) :=
  map (fun t => (p, t)) times.

(** What the page keeps true of its clock: the only live interval is the
    one recorded in [state.timerId], its handle has been given out
    already, and no interval is recorded once every question has been
    answered. *)
Definition TimerInv (w : World) : Prop :=
  intervals w = match timerId w with
                | Some h => {[ h ]}
                | None => empty
                end /\
  (forall h, timerId w = Some h -> (h < nextHandle w)%positive) /\
  (TOTAL_QUESTIONS <= index w -> timerId w = None).

(** What the page keeps true of its overlays: rectangle and marker are
    there together or not at all, and the rectangle is the normalized
    one of the question answered last, coloured by whether the marked
    click is inside it. *)
Definition FeedbackInv (w : World) : Prop :=
  match currentRect w, clickMarker w with
  | None, None => True
  | Some r, Some m =>
      exists loc, location_at (index w - 1) = Some loc /\
        r = mkRectangle (normalizeBounds (bounds loc))
                        (pointInBounds m (bounds loc))
  | _, _ => False
  end.

(** The clock reading an event carries. *)
Definition event_time (e : Event) : Z :=
  match e with
  | Reset now => now
  | Guess _ now => now
  end.

(** The largest value [Date.now()] can take. *)
Definition MAX_TIME : Z := 8640000000000000.

(** Events whose clock readings never go back, from [t] on. *)
Fixpoint chronological (t : Z) (es : list Event) : Prop :=
  match es with
  | [] => True
  | e :: es' =>
      t <= event_time e /\ event_time e <= MAX_TIME /\
      chronological (event_time e) es'
  end.

(** The best time in store, when the store holds none or one the
    program wrote. *)
Inductive best_is (w : World) : option Z -> Prop :=
| best_none :
    localStorage w !! BEST_KEY = None -> best_is w None
| best_some b :
    localStorage w !! BEST_KEY = Some (Js.ToString b) ->
    0 <= b <= Js.MAX_SAFE_INTEGER -> best_is w (Some b).

Definition no_worse (new old : option Z) : Prop :=
  match old, new with
  | Some b, Some b' => b' <= b
  | Some _, None => False
  | None, _ => True
  end.

(** The start time on record, if any, is a clock reading between 0 and
    [last]. *)
Definition ClockInv (w : World) (last : Z) : Prop :=
  forall t, startedAtMs w = Some t -> 0 <= t <= last.

(** The clicks among the events of the page, as events of the state
    machine: turns of the clock and of the toast are left out. *)
Fixpoint user_events (es : list Ui.Event) : list Event :=
  match es with
  | [] => []
  | Ui.Click now :: es' => Reset now :: user_events es'
  | Ui.DblClick latLng now :: es' => Guess latLng now :: user_events es'
  | _ :: es' => user_events es'
  end.

(** The document has an element with this id. *)
Definition has (p : Ui.Page) (id : string) : Prop := is_Some (Ui.dom p !! id).

(** What the header and the prompt show.  While questions are left:
    the number of the question, the score and the name to find.  Once
    the round is over: "5 / 5", the closing sentence with the final
    score, and in the score field the score as it was before the last
    answer. *)
Definition HeaderInv (p : Ui.Page) : Prop :=
  let w := Ui.world p in
  (index w < TOTAL_QUESTIONS ->
   Ui.dom p !! "qCount"%string
   = Some (Ui.Plain (Js.ToString (index w + 1) ++ " / 5")%string) /\
   Ui.dom p !! "score"%string = Some (Ui.Plain (Js.ToString (correct w))) /\
   Ui.dom p !! "promptText"%string
   = Some (Ui.Plain (match location_at (index w) with
                     | Some q => name q
                     | None => "Done"%string
                     end))) /\
  (TOTAL_QUESTIONS <= index w ->
   Ui.dom p !! "qCount"%string = Some (Ui.Plain "5 / 5") /\
   Ui.dom p !! "promptText"%string
   = Some (Ui.Plain ("Done. You got " ++ Js.ToString (correct w)
                     ++ " out of 5 correct.")%string) /\
   exists r, currentRect w = Some r /\
     Ui.dom p !! "score"%string
     = Some (Ui.Plain (Js.ToString
                         (correct w - (if rect_correct r then 1 else 0))))).

(** The best time shown is the one [getBestSeconds] reads. *)
Definition BestInv (p : Ui.Page) : Prop :=
  Ui.dom p !! "best"%string
  = Some (Ui.BestText (getBestSeconds (Ui.world p))).

(** A document with every element the script writes to, all empty, and
    the same document without the map container. *)
Definition sample_document : gmap string Ui.Text :=
  list_to_map
    (map (fun id => (id, Ui.Plain ""))
         ["map"; "promptText"; "qCount"; "score"; "timer"; "best";
          "toast"]%string).

Definition mapless_document : gmap string Ui.Text :=
  delete "map"%string sample_document.

(** The events of a round played on the page. *)
Definition sample_clicks : list Ui.Event :=
  [ Ui.Tick 1500;
    Ui.DblClick (fst (hd (point_of 0 0, 0) sample_round)) 3000;
    Ui.ToastTimeout;
    Ui.DblClick (point_of 0 0) 5000;
    Ui.DblClick (point_of 1 1) 8000;
    Ui.Tick 8250;
    Ui.DblClick (point_of 2 2) 9000;
    Ui.DblClick (point_of 34 (-118)) 12500 ].

(** Strings of white space only. *)
Fixpoint all_ws (s : string) : bool :=
  match s with
  | EmptyString => true
  | String c r => Js.is_ws c && all_ws r
  end.

(** * Properties *)

(** ** The model on concrete inputs *)

Example Number_samples :
  Js.Number "" = Js.pos_zero /\
  Js.Number " 42 " = Js.of_Z 42 /\
  Js.Number "-3" = Js.neg (Js.of_Z 3) /\
  Js.Number "12.5" = Js.decimal 125 1 /\
  Js.Number "1e3" = Js.of_Z 1000 /\
  Js.Number "0x1F" = Js.of_Z 31 /\
  Js.Number "-Infinity" = Js.neg Js.Infinity /\
  Js.Number "12abc" = Js.NaN /\
  Js.Number "9007199254740993" = Js.of_Z (2 ^ 53).
Proof. repeat split; reflexivity. Qed.

Example ToString_samples :
  map Js.ToString [0; 7; 65; 3600; -12] = ["0"; "7"; "65"; "3600"; "-12"]%string.
Proof. reflexivity. Qed.

Example padStart_samples :
  Js.padStart 2 "0" "5" = "05"%string /\
  Js.padStart 2 "0" "123" = "123"%string /\
  Js.padStart 5 "ab" "x" = "ababx"%string.
Proof. repeat split; reflexivity. Qed.

(** The rectangles of [LOCATIONS] are binary64 values given in order:
    normalizing them changes nothing. *)
Example LOCATIONS_normalized :
  forallb (fun loc =>
             let b := bounds loc in
             valid_binary Js.prec Js.emax (north b) &&
             valid_binary Js.prec Js.emax (south b) &&
             valid_binary Js.prec Js.emax (east b) &&
             valid_binary Js.prec Js.emax (west b) &&
             Js.strict_eq (north (normalizeBounds b)) (north b) &&
             Js.strict_eq (south (normalizeBounds b)) (south b) &&
             Js.strict_eq (east (normalizeBounds b)) (east b) &&
             Js.strict_eq (west (normalizeBounds b)) (west b))
          LOCATIONS = true.
Proof. vm_compute. reflexivity. Qed.

(** A stored text that is empty, not a number or not finite counts as
    no best time. *)
Example getBestSeconds_samples :
  getBestSeconds (initial empty) = None /\
  getBestSeconds (initial {[ BEST_KEY := ""%string ]}) = None /\
  getBestSeconds (initial {[ BEST_KEY := "fast"%string ]}) = None /\
  getBestSeconds (initial {[ BEST_KEY := "Infinity"%string ]}) = None /\
  getBestSeconds (initial {[ BEST_KEY := "0"%string ]}) = Some Js.pos_zero /\
  getBestSeconds (initial {[ BEST_KEY := "8"%string ]}) = Some (Js.of_Z 8).
Proof. repeat split; reflexivity. Qed.

(** A whole game: reset, one right answer, four wrong ones, the round
    finishing 11 seconds after it began with no best time in store. *)
Example sample_game :
  let w := run (initial empty) (Reset 1000 :: guesses sample_round) in
  phase (initial empty) = Idle /\
  index w = 5 /\ correct w = 1 /\ phase w = Finished /\
  localStorage w !! BEST_KEY = Some "11"%string /\
  getBestSeconds w = Some (Js.of_Z 11).
Proof. vm_compute. repeat split; reflexivity. Qed.

(** ** The order on numbers *)

Section Compare.

Implicit Types x y z : Js.number.

Lemma SFcompare_antisym x y :
  SFcompare y x = option_map CompOpp (SFcompare x y).
Proof.
  destruct x as [sx|sx| |sx mx ex], y as [sy|sy| |sy my ey]; simpl;
    try reflexivity; try (destruct sx; reflexivity);
    try (destruct sy; reflexivity);
    try (destruct sx, sy; reflexivity).
  change (Pos.compare_cont Eq my mx) with (my ?= mx)%positive.
  change (Pos.compare_cont Eq mx my) with (mx ?= my)%positive.
  rewrite (Z.compare_antisym ex ey), (Pos.compare_antisym mx my).
  destruct sx, sy; simpl; try reflexivity;
    destruct (ex ?= ey); simpl; try reflexivity;
    destruct (mx ?= my)%positive; reflexivity.
Qed.

Lemma SFcompare_None x y :
  SFcompare x y = None <-> x = Js.NaN \/ y = Js.NaN.
Proof.
  unfold Js.NaN.
  destruct x as [sx|sx| |sx mx ex], y as [sy|sy| |sy my ey]; simpl;
    split; intros H; try discriminate; auto;
    try (destruct H; discriminate).
Qed.

Lemma SFcompare_Eq x y :
  SFcompare x y = Some Eq ->
  x = y \/ exists sx sy, x = S754_zero sx /\ y = S754_zero sy.
Proof.
  destruct x as [sx|sx| |sx mx ex], y as [sy|sy| |sy my ey]; simpl;
    intros H; try discriminate; eauto;
    try (destruct sx; discriminate); try (destruct sy; discriminate).
  - destruct sx, sy; try discriminate; auto.
  - left.
    destruct sx, sy; try discriminate;
      destruct (ex ?= ey) eqn:He; try discriminate;
      apply Z.compare_eq in He; subst ey;
      destruct (Pos.compare_cont Eq mx my) eqn:Hm; try discriminate;
      apply Pos.compare_eq in Hm; subst my; reflexivity.
Qed.

Lemma SFcompare_refl x : Js.isNaN x = false -> SFcompare x x = Some Eq.
Proof.
  destruct x as [sx|sx| |sx mx ex]; simpl; intros H; try discriminate;
    try reflexivity; try (destruct sx; reflexivity).
  rewrite Z.compare_refl.
  change (Pos.compare_cont Eq mx mx) with (mx ?= mx)%positive.
  rewrite Pos.compare_refl. destruct sx; reflexivity.
Qed.

End Compare.

(** ** [Math.max] and [Math.min] *)

Section MaxMin.

Implicit Types a b x : Js.number.

(** Numbers that compare equal compare alike with any third one. *)
Lemma SFcompare_Eq_l x y z :
  SFcompare x y = Some Eq -> SFcompare x z = SFcompare y z.
Proof.
  intros H. destruct (SFcompare_Eq _ _ H) as [->|(sx & sy & -> & ->)].
  - reflexivity.
  - destruct z; reflexivity.
Qed.

Lemma Math_max_cases a b :
  Js.Math_max a b =
  match SFcompare a b with
  | None => Js.NaN
  | Some Lt => b
  | Some Gt => a
  | Some Eq =>
      match b, a with
      | S754_zero false, S754_zero true => Js.pos_zero
      | _, _ => a
      end
  end.
Proof.
  unfold Js.Math_max, Js.max_step, Js.gt, Js.IsLessThan.
  destruct a as [sa|sa| |sa ma ea], b as [sb|sb| |sb mb eb];
    try destruct sa; try destruct sb; cbn; try reflexivity;
    destruct (ea ?= eb); cbn; try reflexivity;
    destruct (Pos.compare_cont Eq ma mb); reflexivity.
Qed.

Lemma Math_min_cases a b :
  Js.Math_min a b =
  match SFcompare a b with
  | None => Js.NaN
  | Some Lt => a
  | Some Gt => b
  | Some Eq =>
      match b, a with
      | S754_zero true, S754_zero false => Js.neg_zero
      | _, _ => a
      end
  end.
Proof.
  unfold Js.Math_min, Js.min_step, Js.lt, Js.IsLessThan.
  destruct a as [sa|sa| |sa ma ea], b as [sb|sb| |sb mb eb];
    try destruct sa; try destruct sb; cbn; try reflexivity;
    change (Pos.compare_cont Eq mb ma) with (mb ?= ma)%positive;
    change (Pos.compare_cont Eq ma mb) with (ma ?= mb)%positive;
    rewrite (Z.compare_antisym ea eb), (Pos.compare_antisym ma mb);
    destruct (ea ?= eb); cbn; try reflexivity;
    destruct (ma ?= mb)%positive; reflexivity.
Qed.

Lemma Math_max_comm a b : Js.Math_max a b = Js.Math_max b a.
Proof.
  rewrite !Math_max_cases, (SFcompare_antisym a b).
  destruct (SFcompare a b) as [[]|] eqn:H; simpl; try reflexivity.
  destruct (SFcompare_Eq _ _ H) as [->|(sa & sb & -> & ->)].
  - destruct b as [[]| | |]; reflexivity.
  - destruct sa, sb; reflexivity.
Qed.

Lemma Math_min_comm a b : Js.Math_min a b = Js.Math_min b a.
Proof.
  rewrite !Math_min_cases, (SFcompare_antisym a b).
  destruct (SFcompare a b) as [[]|] eqn:H; simpl; try reflexivity.
  destruct (SFcompare_Eq _ _ H) as [->|(sa & sb & -> & ->)].
  - destruct b as [[]| | |]; reflexivity.
  - destruct sa, sb; reflexivity.
Qed.

(** The larger of two numbers is not below the smaller, unless one of
    them is NaN. *)
Lemma compare_max_min a b :
  Js.isNaN a = false -> Js.isNaN b = false ->
  SFcompare (Js.Math_max a b) (Js.Math_min a b) = Some Eq \/
  SFcompare (Js.Math_max a b) (Js.Math_min a b) = Some Gt.
Proof.
  intros Ha Hb. rewrite Math_max_cases, Math_min_cases.
  destruct (SFcompare a b) as [[]|] eqn:H.
  - left. destruct (SFcompare_Eq _ _ H) as [->|(sa & sb & -> & ->)].
    + destruct b as [[]| | |]; try discriminate; try reflexivity;
        apply SFcompare_refl; reflexivity.
    + destruct sa, sb; reflexivity.
  - right. rewrite (SFcompare_antisym a b), H. reflexivity.
  - right. exact H.
  - apply SFcompare_None in H. unfold Js.NaN in H.
    destruct H as [->| ->]; discriminate.
Qed.

Lemma max_max_min a b :
  Js.Math_max (Js.Math_max a b) (Js.Math_min a b) = Js.Math_max a b.
Proof.
  rewrite (Math_max_cases (Js.Math_max a b)).
  destruct (Js.isNaN a) eqn:Ha; [destruct a; try discriminate; reflexivity|].
  destruct (Js.isNaN b) eqn:Hb;
    [destruct b; try discriminate; destruct a; reflexivity|].
  destruct (compare_max_min a b Ha Hb) as [H|H]; rewrite H; [|reflexivity].
  revert H. rewrite Math_max_cases, Math_min_cases.
  destruct (SFcompare a b) as [[]|] eqn:Hab; intros H.
  - destruct (SFcompare_Eq _ _ Hab) as [->|(sa & sb & -> & ->)].
    + destruct b as [[]| | |]; reflexivity.
    + destruct sa, sb; reflexivity.
  - destruct (SFcompare_Eq _ _ H) as [->|(sa & sb & -> & ->)].
    + destruct a as [[]| | |]; reflexivity.
    + discriminate Hab.
  - destruct (SFcompare_Eq _ _ H) as [->|(sa & sb & -> & ->)].
    + destruct b as [[]| | |]; reflexivity.
    + discriminate Hab.
  - reflexivity.
Qed.

Lemma min_max_min a b :
  Js.Math_min (Js.Math_max a b) (Js.Math_min a b) = Js.Math_min a b.
Proof.
  rewrite (Math_min_cases (Js.Math_max a b)).
  destruct (Js.isNaN a) eqn:Ha; [destruct a; try discriminate; reflexivity|].
  destruct (Js.isNaN b) eqn:Hb;
    [destruct b; try discriminate; destruct a; reflexivity|].
  destruct (compare_max_min a b Ha Hb) as [H|H]; rewrite H; [|reflexivity].
  revert H. rewrite Math_max_cases, Math_min_cases.
  destruct (SFcompare a b) as [[]|] eqn:Hab; intros H.
  - destruct (SFcompare_Eq _ _ Hab) as [->|(sa & sb & -> & ->)].
    + destruct b as [[]| | |]; reflexivity.
    + destruct sa, sb; reflexivity.
  - destruct (SFcompare_Eq _ _ H) as [->|(sa & sb & -> & ->)].
    + destruct a as [[]| | |]; reflexivity.
    + discriminate Hab.
  - destruct (SFcompare_Eq _ _ H) as [->|(sa & sb & -> & ->)].
    + destruct b as [[]| | |]; reflexivity.
    + discriminate Hab.
  - reflexivity.
Qed.

End MaxMin.

(** ** Bounds *)

Section BoundsFacts.

Implicit Types (b : Bounds) (p : LatLng).

Lemma normalizeBounds_idempotent b :
  normalizeBounds (normalizeBounds b) = normalizeBounds b.
Proof.
  unfold normalizeBounds; simpl.
  now rewrite !max_max_min, !min_max_min.
Qed.

Lemma normalizeBounds_swap_north_south b :
  normalizeBounds (swap_north_south b) = normalizeBounds b.
Proof.
  unfold normalizeBounds, swap_north_south; simpl.
  now rewrite (Math_max_comm (south b)), (Math_min_comm (south b)).
Qed.

Lemma normalizeBounds_swap_east_west b :
  normalizeBounds (swap_east_west b) = normalizeBounds b.
Proof.
  unfold normalizeBounds, swap_east_west; simpl.
  now rewrite (Math_max_comm (west b)), (Math_min_comm (west b)).
Qed.

Lemma ge_max_min (a c : Js.number) :
  Js.isFinite a = true -> Js.isFinite c = true ->
  Js.ge (Js.Math_max a c) (Js.Math_min a c) = true.
Proof.
  intros Ha Hc. unfold Js.ge, Js.IsLessThan.
  destruct (compare_max_min a c) as [H|H]; try rewrite H; try reflexivity.
  - destruct a; try discriminate; reflexivity.
  - destruct c; try discriminate; reflexivity.
Qed.

(** A number equal to the larger of two is between the two, and so is
    one equal to the smaller. *)
Lemma on_max_edge (x a c : Js.number) :
  Js.strict_eq x (Js.Math_max a c) = true ->
  Js.le x (Js.Math_max a c) = true /\ Js.ge x (Js.Math_min a c) = true.
Proof.
  unfold Js.strict_eq, SFeqb, Js.le, Js.ge, Js.IsLessThan. intros H.
  destruct (SFcompare x (Js.Math_max a c)) as [[]|] eqn:Hx; try discriminate.
  rewrite (SFcompare_antisym x), Hx; simpl. split; [reflexivity|].
  rewrite (SFcompare_Eq_l _ _ (Js.Math_min a c) Hx).
  assert (Js.isNaN a = false /\ Js.isNaN c = false) as [Ha Hc].
  { destruct a, c; auto; destruct x; discriminate. }
  destruct (compare_max_min a c Ha Hc) as [->| ->]; reflexivity.
Qed.

Lemma on_min_edge (x a c : Js.number) :
  Js.strict_eq x (Js.Math_min a c) = true ->
  Js.le x (Js.Math_max a c) = true /\ Js.ge x (Js.Math_min a c) = true.
Proof.
  unfold Js.strict_eq, SFeqb, Js.le, Js.ge, Js.IsLessThan. intros H.
  destruct (SFcompare x (Js.Math_min a c)) as [[]|] eqn:Hx; try discriminate.
  split; [|reflexivity].
  rewrite (SFcompare_antisym x), (SFcompare_Eq_l _ _ (Js.Math_max a c) Hx).
  rewrite (SFcompare_antisym (Js.Math_max a c)).
  assert (Js.isNaN a = false /\ Js.isNaN c = false) as [Ha Hc].
  { destruct a, c; auto; destruct x; discriminate. }
  destruct (compare_max_min a c Ha Hc) as [->| ->]; reflexivity.
Qed.

Lemma pointInBounds_within p b :
  pointInBounds p b = true <-> within p (normalizeBounds b).
Proof.
  unfold pointInBounds, within, Js.vle, Js.vge, Js.le, Js.ge.
  rewrite !andb_true_iff. tauto.
Qed.

End BoundsFacts.

(** C7: for every box with four finite coordinates, [normalizeBounds]
    returns a box whose north is at least its south and whose east is at
    least its west, and normalizing a second time changes nothing. *)
Theorem normalizeBounds_ordered_idempotent (b : Bounds) :
  finite_box b = true ->
  Js.ge (north (normalizeBounds b)) (south (normalizeBounds b)) = true /\
  Js.ge (east (normalizeBounds b)) (west (normalizeBounds b)) = true /\
  normalizeBounds (normalizeBounds b) = normalizeBounds b.
Proof.
  unfold finite_box. rewrite !andb_true_iff. intros [[[Hn Hs] He] Hw].
  repeat split.
  - now apply ge_max_min.
  - now apply ge_max_min.
  - apply normalizeBounds_idempotent.
Qed.

Lemma normalizeBounds_ordered_idempotent_witness :
  finite_box reversed_box = true /\
  Js.ge (north (normalizeBounds reversed_box))
        (south (normalizeBounds reversed_box)) = true /\
  Js.ge (east (normalizeBounds reversed_box))
        (west (normalizeBounds reversed_box)) = true /\
  normalizeBounds (normalizeBounds reversed_box) = normalizeBounds reversed_box.
Proof.
  split; [reflexivity|].
  apply (normalizeBounds_ordered_idempotent reversed_box). reflexivity.
Defined.

(** C8: [pointInBounds] gives the same answer when the north and south
    of the box are exchanged, and when its east and west are; the point
    (7, -102) is inside the box given as north 5, south 10, east -105,
    west -100. *)
Theorem pointInBounds_swap_invariant (p : LatLng) (b : Bounds) :
  pointInBounds p (swap_north_south b) = pointInBounds p b /\
  pointInBounds p (swap_east_west b) = pointInBounds p b /\
  pointInBounds (point_of 7 (-102)) reversed_box = true.
Proof.
  unfold pointInBounds.
  rewrite normalizeBounds_swap_north_south, normalizeBounds_swap_east_west.
  repeat split; reflexivity.
Qed.

(** C2: [pointInBounds] answers true exactly when the point lies within
    the normalized box, south <= lat <= north and west <= lng <= east;
    the four comparisons are inclusive: a point whose latitude equals the
    north or the south edge and whose longitude is in range is inside,
    and so is one whose longitude equals the east or the west edge and
    whose latitude is in range.  In the ordered box north 10, south 5,
    east -100, west -105 the point (7, -102) is inside and (7, -99) is
    not. *)
Theorem pointInBounds_inclusive (p : LatLng) (b : Bounds) :
  let bb := normalizeBounds b in
  (pointInBounds p b = true <-> within p bb) /\
  (Js.strict_eq (Js.ToNumber (lat p)) (north bb) = true ->
   Js.vle (west bb) (lng p) = true -> Js.vle (lng p) (east bb) = true ->
   pointInBounds p b = true) /\
  (Js.strict_eq (Js.ToNumber (lat p)) (south bb) = true ->
   Js.vle (west bb) (lng p) = true -> Js.vle (lng p) (east bb) = true ->
   pointInBounds p b = true) /\
  (Js.strict_eq (Js.ToNumber (lng p)) (east bb) = true ->
   Js.vle (south bb) (lat p) = true -> Js.vle (lat p) (north bb) = true ->
   pointInBounds p b = true) /\
  (Js.strict_eq (Js.ToNumber (lng p)) (west bb) = true ->
   Js.vle (south bb) (lat p) = true -> Js.vle (lat p) (north bb) = true ->
   pointInBounds p b = true) /\
  pointInBounds (point_of 7 (-102)) ordered_box = true /\
  pointInBounds (point_of 7 (-99)) ordered_box = false.
Proof.
  intros bb. split; [apply pointInBounds_within|].
  repeat split; try reflexivity; intros He H1 H2;
    apply pointInBounds_within; fold bb; unfold within;
    unfold bb, normalizeBounds in *; simpl in *; unfold Js.vle in *; simpl.
  - destruct (on_max_edge _ _ _ He). auto.
  - destruct (on_min_edge _ _ _ He). auto.
  - destruct (on_max_edge _ _ _ He). auto.
  - destruct (on_min_edge _ _ _ He). auto.
Qed.

Lemma pointInBounds_inclusive_witness :
  Js.strict_eq (Js.ToNumber (lat (point_of 10 (-102))))
               (north (normalizeBounds ordered_box)) = true /\
  pointInBounds (point_of 10 (-102)) ordered_box = true.
Proof.
  split; [reflexivity|].
  apply (proj1 (proj2 (pointInBounds_inclusive (point_of 10 (-102))
                         ordered_box))); reflexivity.
Defined.

(** C9: [pointInBounds] is a total function of the point and the box,
    and a point one of whose coordinates is [undefined] or NaN is
    answered with false. *)
Theorem pointInBounds_missing_coordinate (p : LatLng) (b : Bounds) :
  missing (lat p) \/ missing (lng p) -> pointInBounds p b = false.
Proof.
  unfold missing, pointInBounds, Js.vle, Js.vge, Js.le, Js.ge, Js.IsLessThan.
  intros [H|H].
  - destruct (Js.ToNumber (lat p)); try discriminate.
    rewrite (proj2 (SFcompare_None _ _)) by (right; reflexivity).
    reflexivity.
  - destruct (Js.ToNumber (lng p)); try discriminate.
    rewrite (proj2 (SFcompare_None _ S754_nan)) by (right; reflexivity).
    rewrite !andb_false_r. reflexivity.
Qed.

Lemma pointInBounds_missing_coordinate_witness :
  missing (lat (mkLatLng Js.Undefined (Js.of_Z 7))) /\
  pointInBounds (mkLatLng Js.Undefined (Js.of_Z 7)) ordered_box = false.
Proof.
  split; [reflexivity|].
  apply (pointInBounds_missing_coordinate
           (mkLatLng Js.Undefined (Js.of_Z 7)) ordered_box).
  left. reflexivity.
Defined.

(** ** The round *)

Section Round.

Implicit Types (w : World) (p : LatLng) (now : Z).

Lemma resetGame_counters now w :
  index (resetGame now w) = 0 /\ correct (resetGame now w) = 0.
Proof. split; reflexivity. Qed.

Lemma LOCATIONS_length : length LOCATIONS = 5%nat.
Proof. reflexivity. Qed.

Lemma location_at_Some w loc :
  location_at (index w) = Some loc ->
  0 <= index w < TOTAL_QUESTIONS /\
  drop (Z.to_nat (index w)) LOCATIONS
  = loc :: drop (S (Z.to_nat (index w))) LOCATIONS.
Proof.
  unfold location_at, TOTAL_QUESTIONS. intros H.
  destruct (index w <? 0) eqn:Hneg; [discriminate|].
  apply Z.ltb_ge in Hneg.
  pose proof (lookup_lt_Some _ _ _ H) as Hlt.
  rewrite LOCATIONS_length in Hlt.
  split; [lia|]. now apply drop_S.
Qed.

Lemma location_at_None w :
  TOTAL_QUESTIONS <= index w -> location_at (index w) = None.
Proof.
  unfold location_at, TOTAL_QUESTIONS. intros H.
  destruct (index w <? 0) eqn:Hneg; [reflexivity|].
  apply lookup_ge_None. rewrite LOCATIONS_length. lia.
Qed.

Lemma location_at_is_Some w :
  0 <= index w < TOTAL_QUESTIONS -> is_Some (location_at (index w)).
Proof.
  unfold location_at, TOTAL_QUESTIONS. intros H.
  destruct (index w <? 0) eqn:Hneg; [apply Z.ltb_lt in Hneg; lia|].
  apply lookup_lt_is_Some. rewrite LOCATIONS_length. lia.
Qed.

Lemma finishGame_state now w :
  index (finishGame now w) = index w /\
  correct (finishGame now w) = correct w /\
  timerId (finishGame now w) = None.
Proof.
  unfold finishGame.
  destruct (beats _ _); repeat split; reflexivity.
Qed.

(** What one answered question does to the two counters. *)
Lemma handleAnswer_counters p now w loc :
  location_at (index w) = Some loc ->
  index (handleAnswer p now w) = index w + 1 /\
  correct (handleAnswer p now w)
  = correct w + (if pointInBounds p (bounds loc) then 1 else 0).
Proof.
  intros H. unfold handleAnswer. rewrite H.
  set (ok := pointInBounds p (bounds loc)).
  set (w3 := set_index _ _).
  assert (index w3 = index w + 1 /\
          correct w3 = correct w + (if ok then 1 else 0)) as [Hi Hc].
  { unfold w3. destruct ok; simpl; split; lia. }
  destruct (index w3 >=? TOTAL_QUESTIONS); [|now split].
  destruct (finishGame_state now w3) as (-> & -> & _). now split.
Qed.

Lemma finishGame_startedAtMs now w :
  startedAtMs (finishGame now w) = startedAtMs w.
Proof. unfold finishGame. destruct (beats _ _); reflexivity. Qed.

Lemma handleAnswer_startedAtMs p now w :
  startedAtMs (handleAnswer p now w) = startedAtMs w.
Proof.
  unfold handleAnswer. destruct (location_at (index w)) as [loc|]; [|reflexivity].
  set (w3 := set_index _ _).
  assert (startedAtMs w3 = startedAtMs w) as H3
    by (unfold w3; destruct (pointInBounds _ _); reflexivity).
  destruct (index w3 >=? TOTAL_QUESTIONS); [|exact H3].
  now rewrite finishGame_startedAtMs.
Qed.

Lemma run_guesses_startedAtMs gs : forall w,
  startedAtMs (run w (guesses gs)) = startedAtMs w.
Proof.
  induction gs as [|g gs IH]; intros w; [reflexivity|].
  cbn [guesses map run fold_left step].
  fold (guesses gs). fold (run (handleAnswer (fst g) (snd g) w) (guesses gs)).
  now rewrite IH, handleAnswer_startedAtMs.
Qed.

Lemma handleAnswer_finished p now w :
  TOTAL_QUESTIONS <= index w -> handleAnswer p now w = w.
Proof.
  intros H. unfold handleAnswer. now rewrite location_at_None.
Qed.

(** The timer is stopped by the answer that takes the index to the
    number of questions. *)
Lemma handleAnswer_last_stops p now w :
  index w = TOTAL_QUESTIONS - 1 -> timerId (handleAnswer p now w) = None.
Proof.
  intros H. unfold handleAnswer.
  destruct (location_at_is_Some w) as [loc ->];
    [unfold TOTAL_QUESTIONS in *; lia|].
  set (w3 := set_index _ _).
  assert (index w3 = TOTAL_QUESTIONS) as Hi.
  { unfold w3. destruct (pointInBounds _ _); simpl; lia. }
  rewrite Hi. simpl. apply finishGame_state.
Qed.

Lemma run_guesses_counters gs : forall w,
  0 <= index w ->
  index w + Z.of_nat (length gs) <= TOTAL_QUESTIONS ->
  index (run w (guesses gs)) = index w + Z.of_nat (length gs) /\
  correct (run w (guesses gs))
  = correct w + contained gs (drop (Z.to_nat (index w)) LOCATIONS).
Proof.
  induction gs as [|g gs IH]; intros w H0 Hlen; simpl in *.
  - split; lia.
  - destruct (location_at_is_Some w) as [loc Hloc]; [lia|].
    destruct (handleAnswer_counters (fst g) (snd g) w loc Hloc) as [Hi Hc].
    destruct (location_at_Some w loc Hloc) as [_ Hdrop].
    destruct (IH (handleAnswer (fst g) (snd g) w)) as [Hi' Hc'];
      [lia | lia |].
    fold (run (handleAnswer (fst g) (snd g) w) (guesses gs)).
    rewrite Hi', Hc', Hi, Hc, Hdrop.
    replace (Z.to_nat (index w + 1)) with (S (Z.to_nat (index w))) by lia.
    split; lia.
Qed.

Lemma contained_bounds gs : forall locs,
  0 <= contained gs locs <= Z.of_nat (length gs).
Proof.
  induction gs as [|g gs IH]; intros [|loc locs]; simpl; try lia.
  specialize (IH locs). destruct (pointInBounds _ _); lia.
Qed.

Lemma run_guesses_finished gs : forall w,
  TOTAL_QUESTIONS <= index w -> run w (guesses gs) = w.
Proof.
  induction gs as [|g gs IH]; intros w H; simpl; [reflexivity|].
  rewrite handleAnswer_finished by assumption.
  now apply IH.
Qed.

Lemma run_app w es1 es2 : run w (es1 ++ es2) = run (run w es1) es2.
Proof. apply fold_left_app. Qed.

Lemma Inv_resetGame now w : Inv (resetGame now w).
Proof. unfold Inv, TOTAL_QUESTIONS; simpl. lia. Qed.

Lemma Inv_handleAnswer p now w : Inv w -> Inv (handleAnswer p now w).
Proof.
  unfold Inv. intros (H0 & H1 & H2).
  destruct (location_at (index w)) as [loc|] eqn:Hloc.
  - destruct (handleAnswer_counters p now w loc Hloc) as [-> ->].
    destruct (location_at_Some w loc Hloc) as [Hi _].
    destruct (pointInBounds _ _); lia.
  - unfold handleAnswer. rewrite Hloc. auto.
Qed.

Lemma Inv_step w e : Inv w -> Inv (step w e).
Proof.
  destruct e; simpl; intros H;
    [apply Inv_resetGame | now apply Inv_handleAnswer].
Qed.

Lemma Inv_run es : forall w, Inv w -> Inv (run w es).
Proof.
  induction es as [|e es IH]; intros w H; simpl; [assumption|].
  apply IH, Inv_step, H.
Qed.

End Round.

(** C1: five guesses submitted after a reset leave in [correct] the
    number of guesses that [pointInBounds] places inside the rectangle of
    the question they answer, a number between 0 and 5. *)
Theorem round_counts_contained (w : World) (now : Z)
    (gs : list (LatLng * Z)) :
  length gs = 5%nat ->
  let w' := run (resetGame now w) (guesses gs) in
  correct w' = contained gs LOCATIONS /\ 0 <= correct w' <= 5.
Proof.
  intros Hlen w'.
  destruct (resetGame_counters now w) as [Hi0 Hc0].
  destruct (run_guesses_counters gs (resetGame now w)) as [_ Hc];
    rewrite ?Hi0; unfold TOTAL_QUESTIONS; try lia.
  fold w' in Hc. rewrite Hi0, Hc0 in Hc. change (Z.to_nat 0) with 0%nat in Hc.
  rewrite drop_0, Z.add_0_l in Hc. split; [exact Hc|].
  rewrite Hc. pose proof (contained_bounds gs LOCATIONS). lia.
Qed.

Lemma round_counts_contained_witness :
  length sample_round = 5%nat /\
  let w' := run (resetGame 1000 (initial empty)) (guesses sample_round) in
  correct w' = contained sample_round LOCATIONS /\ 0 <= correct w' <= 5.
Proof.
  split; [reflexivity|].
  apply (round_counts_contained (initial empty) 1000 sample_round).
  reflexivity.
Defined.

(** C5: after five guesses the round is finished (the index has reached
    the number of questions and the timer is stopped), no sooner, and
    every guess that follows, alone or in a sequence, returns the whole
    state as it was. *)
Theorem finished_ignores_guesses (w : World) (now : Z)
    (gs more : list (LatLng * Z)) :
  length gs = 5%nat ->
  let w' := run (resetGame now w) (guesses gs) in
  phase w' = Finished /\ index w' = TOTAL_QUESTIONS /\ timerId w' = None /\
  (forall k, (k < 5)%nat ->
     phase (run (resetGame now w) (guesses (take k gs))) = Running) /\
  (forall p t, handleAnswer p t w' = w') /\
  run w' (guesses more) = w'.
Proof.
  intros Hlen w'.
  destruct (resetGame_counters now w) as [Hi0 _].
  assert (index w' = TOTAL_QUESTIONS) as Hi.
  { destruct (run_guesses_counters gs (resetGame now w)) as [Hi _];
      rewrite ?Hi0; unfold TOTAL_QUESTIONS; try lia.
    fold w' in Hi. lia. }
  split; [unfold phase; rewrite Hi; reflexivity|].
  split; [exact Hi|]. split; [|split; [|split]].
  - unfold w'.
    rewrite <- (take_drop 4 gs). unfold guesses. rewrite map_app, run_app.
    fold (guesses (take 4 gs)) (guesses (drop 4 gs)).
    destruct (drop 4 gs) as [|g [|g' rest]] eqn:Hd;
      try (apply (f_equal length) in Hd; rewrite length_drop in Hd;
           simpl in Hd; lia).
    simpl. apply handleAnswer_last_stops.
    destruct (run_guesses_counters (take 4 gs) (resetGame now w)) as [Hi4 _];
      rewrite ?Hi0; unfold TOTAL_QUESTIONS; rewrite ?length_take; try lia.
    rewrite Hi4, Hi0, length_take. lia.
  - intros k Hk.
    destruct (run_guesses_counters (take k gs) (resetGame now w)) as [Hik _];
      rewrite ?Hi0; unfold TOTAL_QUESTIONS; rewrite ?length_take; try lia.
    unfold phase. rewrite Hik, Hi0, length_take, run_guesses_startedAtMs.
    unfold TOTAL_QUESTIONS.
    destruct (_ >=? 5) eqn:Hge; [|reflexivity].
    apply Z.geb_le in Hge. lia.
  - intros p t. apply handleAnswer_finished. lia.
  - apply run_guesses_finished. lia.
Qed.

Lemma finished_ignores_guesses_witness :
  length sample_round = 5%nat /\
  let w' := run (resetGame 1000 (initial empty)) (guesses sample_round) in
  phase w' = Finished /\ index w' = TOTAL_QUESTIONS /\ timerId w' = None /\
  (forall k, (k < 5)%nat ->
     phase (run (resetGame 1000 (initial empty))
                (guesses (take k sample_round))) = Running) /\
  (forall p t, handleAnswer p t w' = w') /\
  run w' (guesses sample_round) = w'.
Proof.
  split; [reflexivity|].
  apply (finished_ignores_guesses (initial empty) 1000 sample_round
           sample_round).
  reflexivity.
Defined.

(** C6: [0 <= correct <= index <= 5] holds for the state the module
    starts with and after every reset, each reset and each guess keeps
    it, and so it holds after any sequence of resets and guesses. *)
Theorem quiz_invariant :
  (forall ls, Inv (initial ls)) /\
  (forall now w, Inv (resetGame now w)) /\
  (forall w e, Inv w -> Inv (step w e)) /\
  (forall now w es, Inv (run (resetGame now w) es)) /\
  (forall ls es, Inv (run (initial ls) es)).
Proof.
  assert (forall ls, Inv (initial ls)) as Hinit
    by (intros ls; unfold Inv, TOTAL_QUESTIONS; simpl; lia).
  split; [exact Hinit|]. split; [apply Inv_resetGame|].
  split; [intros w e H; now apply Inv_step|].
  split; intros; apply Inv_run; [apply Inv_resetGame | apply Hinit].
Qed.

Lemma quiz_invariant_witness :
  Inv (initial empty) /\
  Inv (step (initial empty) (Guess (point_of 7 (-102)) 2000)).
Proof.
  destruct quiz_invariant as (Hinit & _ & Hstep & _).
  split; [apply Hinit|]. apply Hstep, Hinit.
Defined.

(** ** Printing integers *)

Section Printing.

Lemma digits_of_length fuel : forall n acc,
  (String.length acc <= String.length (Js.digits_of fuel n acc))%nat.
Proof.
  induction fuel as [|fuel IH]; intros n acc; simpl; [lia|].
  destruct (n <? 10); simpl; [lia|].
  etransitivity; [|apply IH]. simpl. lia.
Qed.

Lemma fuel_of_log2 n k : 2 ^ k <= n -> 0 <= k ->
  exists f, Z.to_nat (Z.log2 n) = (Z.to_nat k + f)%nat.
Proof.
  intros Hn Hk. exists (Z.to_nat (Z.log2 n) - Z.to_nat k)%nat.
  assert (k <= Z.log2 n) by (apply Z.log2_le_pow2; lia). lia.
Qed.

Lemma digits_one n : 0 <= n < 10 ->
  Js.digits n = String (Js.digit_char n) "".
Proof.
  intros H. unfold Js.digits; simpl.
  destruct (n <? 10) eqn:E; [|apply Z.ltb_ge in E; lia].
  now rewrite Z.mod_small by lia.
Qed.

Lemma digits_two n : 10 <= n < 100 -> Js.digits n = two_digits n.
Proof.
  intros H. unfold Js.digits, two_digits.
  destruct (fuel_of_log2 n 1) as [f ->]; [lia | lia |].
  change (Z.to_nat 1 + f)%nat with (S f). simpl.
  destruct (n <? 10) eqn:E; [apply Z.ltb_lt in E; lia|].
  destruct (n / 10 <? 10) eqn:E2;
    [|apply Z.ltb_ge in E2;
      assert (n / 10 < 10) by (apply Z.div_lt_upper_bound; lia); lia].
  apply Z.ltb_lt in E2.
  rewrite (Z.mod_small (n / 10)); [reflexivity|].
  split; [apply Z.div_pos; lia | lia].
Qed.

Lemma digits_three n : 100 <= n -> (3 <= String.length (Js.digits n))%nat.
Proof.
  intros H. unfold Js.digits.
  destruct (fuel_of_log2 n 2) as [f ->]; [lia | lia |].
  change (Z.to_nat 2 + f)%nat with (S (S f)). simpl.
  destruct (n <? 10) eqn:E; [apply Z.ltb_lt in E; lia|].
  destruct (n / 10 <? 10) eqn:E2.
  { apply Z.ltb_lt in E2.
    assert (10 <= n / 10) by (apply Z.div_le_lower_bound; lia). lia. }
  destruct (n / 10 / 10 <? 10).
  - simpl. lia.
  - etransitivity; [|apply digits_of_length]. simpl. lia.
Qed.

Lemma ToString_nonneg n : 0 <= n -> Js.ToString n = Js.digits n.
Proof.
  intros H. unfold Js.ToString.
  destruct (n <? 0) eqn:E; [apply Z.ltb_lt in E; lia | reflexivity].
Qed.

Lemma padStart_two_digits n : 0 <= n < 100 ->
  Js.padStart 2 "0" (Js.digits n) = two_digits n.
Proof.
  intros H. destruct (Z.lt_ge_cases n 10) as [Hlt|Hge].
  - rewrite digits_one by lia. unfold two_digits.
    rewrite Z.div_small, Z.mod_small by lia. reflexivity.
  - rewrite digits_two by lia. reflexivity.
Qed.

Lemma padStart_long s :
  (2 <= String.length s)%nat -> Js.padStart 2 "0" s = s.
Proof.
  intros H. unfold Js.padStart.
  destruct (2 <=? String.length s)%nat eqn:E; [reflexivity|].
  apply Nat.leb_gt in E. lia.
Qed.

End Printing.

(** C4, amended: for every non-negative number of seconds [formatTime]
    writes the minutes, a colon, and the seconds modulo 60 on two digits;
    the minutes are the whole quotient by 60, on two digits below 100
    and with all their digits from 100 on, and they do not wrap at 60.
    Below one hour the result is the wrapped [MM:SS] rendering, and 65,
    0 and 599 seconds give 01:05, 00:00 and 09:59. *)
Theorem formatTime_renders (seconds : Z) :
  0 <= seconds ->
  formatTime seconds
  = ((if (seconds / 60 <? 100)%Z then two_digits (seconds / 60)
      else Js.digits (seconds / 60))
     ++ ":" ++ two_digits (seconds mod 60))%string /\
  (seconds < 3600 -> formatTime seconds = format_wrapped seconds) /\
  formatTime 65 = "01:05"%string /\
  formatTime 0 = "00:00"%string /\
  formatTime 599 = "09:59"%string.
Proof.
  intros H.
  assert (0 <= seconds / 60) as Hm by (apply Z.div_pos; lia).
  assert (0 <= seconds mod 60 < 60) as Hs by (apply Z.mod_pos_bound; lia).
  assert (formatTime seconds
          = ((if (seconds / 60 <? 100)%Z then two_digits (seconds / 60)
              else Js.digits (seconds / 60))
             ++ ":" ++ two_digits (seconds mod 60))%string) as Heq.
  { unfold formatTime.
    rewrite Z.rem_mod_nonneg, !ToString_nonneg by lia.
    rewrite (padStart_two_digits (seconds mod 60)) by lia.
    destruct (seconds / 60 <? 100) eqn:E.
    - apply Z.ltb_lt in E. now rewrite padStart_two_digits by lia.
    - apply Z.ltb_ge in E. rewrite padStart_long; [reflexivity|].
      pose proof (digits_three _ E). lia. }
  split; [exact Heq|]. split; [|repeat split; reflexivity].
  intros Hlt. rewrite Heq. unfold format_wrapped.
  assert (seconds / 60 < 60) by (apply Z.div_lt_upper_bound; lia).
  rewrite (Z.mod_small (seconds / 60)) by lia.
  destruct (seconds / 60 <? 100) eqn:E; [reflexivity|].
  apply Z.ltb_ge in E. lia.
Qed.

Lemma formatTime_renders_witness :
  0 <= 6000 /\ formatTime 6000 = "100:00"%string.
Proof.
  split; [lia|].
  destruct (formatTime_renders 6000) as [H _]; [lia|].
  rewrite H. reflexivity.
Defined.

(** C4 as stated fails: one hour is written with 60 minutes, not with
    the minutes wrapped back to 00. *)
Lemma formatTime_minutes_do_not_wrap :
  formatTime 3600 = "60:00"%string /\
  format_wrapped 3600 = "00:00"%string /\
  formatTime 3600 <> format_wrapped 3600.
Proof.
  repeat split; try reflexivity. discriminate.
Qed.

(** ** Integers as binary64 numbers *)

Section SafeIntegers.

Lemma digits2_pos_bounds p :
  2 ^ (Z.pos (digits2_pos p) - 1) <= Z.pos p < 2 ^ Z.pos (digits2_pos p).
Proof.
  induction p as [p IH|p IH|]; simpl digits2_pos.
  - rewrite Pos2Z.inj_succ, (Pos2Z.inj_xI p).
    replace (Z.succ (Z.pos (digits2_pos p)) - 1)
      with (Z.succ (Z.pos (digits2_pos p) - 1)) by lia.
    rewrite !Z.pow_succ_r by lia.
    set (lo := 2 ^ (Z.pos (digits2_pos p) - 1)) in *.
    set (hi := 2 ^ Z.pos (digits2_pos p)) in *. clearbody lo hi. lia.
  - rewrite Pos2Z.inj_succ, (Pos2Z.inj_xO p).
    replace (Z.succ (Z.pos (digits2_pos p)) - 1)
      with (Z.succ (Z.pos (digits2_pos p) - 1)) by lia.
    rewrite !Z.pow_succ_r by lia.
    set (lo := 2 ^ (Z.pos (digits2_pos p) - 1)) in *.
    set (hi := 2 ^ Z.pos (digits2_pos p)) in *. clearbody lo hi. lia.
  - simpl. lia.
Qed.

Lemma digits2_pos_iter_xO k : forall p,
  digits2_pos (Pos.iter xO p k) = (digits2_pos p + k)%positive.
Proof.
  induction k as [|k IH] using Pos.peano_ind; intros p.
  - simpl. now rewrite Pos.add_1_r.
  - rewrite Pos.iter_succ. simpl. rewrite IH. lia.
Qed.

Lemma Zpos_iter_xO k : forall p,
  Z.pos (Pos.iter xO p k) = Z.pos p * 2 ^ Z.pos k.
Proof.
  induction k as [|k IH] using Pos.peano_ind; intros p.
  - simpl. lia.
  - rewrite Pos.iter_succ, Pos2Z.inj_xO, IH, Pos2Z.inj_succ.
    rewrite Z.pow_succ_r by lia. lia.
Qed.

Lemma aligned_spec p : Z.pos p < 2 ^ 53 ->
  let '(m, e) := aligned p in
  e = Z.pos (digits2_pos p) - 53 /\ -52 <= e <= 0 /\
  Z.pos m = Z.pos p * 2 ^ (- e) /\ Z.pos (digits2_pos m) = 53.
Proof.
  intros H. pose proof (digits2_pos_bounds p) as [Hlo _].
  assert (Z.pos (digits2_pos p) <= 53) as Hd.
  { destruct (Z.lt_ge_cases 53 (Z.pos (digits2_pos p))) as [Hgt|]; [|lia].
    assert (2 ^ 53 <= 2 ^ (Z.pos (digits2_pos p) - 1))
      by (apply Z.pow_le_mono_r; lia).
    lia. }
  unfold aligned, shl_align.
  destruct (Z.pos (digits2_pos p) - 53 - 0) as [|k|k] eqn:Hk; try lia.
  rewrite digits2_pos_iter_xO, Zpos_iter_xO, Pos2Z.inj_add.
  replace (- (Z.pos (digits2_pos p) - 53)) with (Z.pos k) by lia.
  repeat split; lia.
Qed.

Lemma of_Z_pos p : Z.pos p < 2 ^ 53 ->
  Js.of_Z (Z.pos p) = S754_finite false (fst (aligned p)) (snd (aligned p)).
Proof.
  intros H. pose proof (aligned_spec p H) as Ha.
  unfold Js.of_Z, binary_normalize, binary_round.
  assert (fexp Js.prec Js.emax (Z.pos (digits2_pos p) + 0)
          = Z.pos (digits2_pos p) - 53) as ->.
  { unfold fexp, emin, Js.prec, Js.emax. lia. }
  fold (aligned p). destruct (aligned p) as [m e].
  destruct Ha as (He & Hr & Hm & Hd). simpl fst; simpl snd.
  unfold binary_round_aux, shr_fexp.
  assert (fexp Js.prec Js.emax (Zdigits2 (Z.pos m) + e) - e = 0) as ->.
  { unfold fexp, emin, Js.prec, Js.emax, Zdigits2. lia. }
  simpl.
  assert (fexp Js.prec Js.emax (Z.pos (digits2_pos m) + e) - e = 0) as ->.
  { unfold fexp, emin, Js.prec, Js.emax. lia. }
  simpl.
  destruct (e <=? Js.emax - Js.prec) eqn:E; [reflexivity|].
  apply Z.leb_gt in E. unfold Js.emax, Js.prec in E. lia.
Qed.

Lemma of_Z_finite s : 0 <= s <= Js.MAX_SAFE_INTEGER ->
  Js.isFinite (Js.of_Z s) = true.
Proof.
  unfold Js.MAX_SAFE_INTEGER. intros H. destruct s as [|p|p]; try lia.
  - reflexivity.
  - rewrite of_Z_pos by lia. reflexivity.
Qed.

Lemma to_Z_of_Z s : 0 <= s <= Js.MAX_SAFE_INTEGER ->
  Js.to_Z (Js.of_Z s) = Some s.
Proof.
  unfold Js.MAX_SAFE_INTEGER. intros H. destruct s as [|p|p]; try lia.
  - reflexivity.
  - rewrite of_Z_pos by lia.
    pose proof (aligned_spec p) as Ha. destruct (aligned p) as [m e].
    destruct Ha as (He & Hr & Hm & Hd); [lia|]. simpl.
    destruct (0 <=? e) eqn:E.
    + apply Z.leb_le in E. assert (e = 0) as -> by lia.
      rewrite Hm. simpl. f_equal. lia.
    + rewrite Hm, Z.mod_mul, Z.div_mul by (apply Z.pow_nonzero; lia).
      reflexivity.
Qed.

(** On safe integers the order of the numbers is the order of the
    integers. *)
Lemma SFcompare_of_Z a b :
  0 <= a <= Js.MAX_SAFE_INTEGER -> 0 <= b <= Js.MAX_SAFE_INTEGER ->
  SFcompare (Js.of_Z a) (Js.of_Z b) = Some (a ?= b).
Proof.
  unfold Js.MAX_SAFE_INTEGER. intros Ha Hb.
  destruct a as [|p|p], b as [|q|q]; try lia; try reflexivity.
  - rewrite of_Z_pos by lia. reflexivity.
  - rewrite of_Z_pos by lia. reflexivity.
  - rewrite !of_Z_pos by lia.
    pose proof (aligned_spec p) as Hp. pose proof (aligned_spec q) as Hq.
    pose proof (digits2_pos_bounds p) as Bp.
    pose proof (digits2_pos_bounds q) as Bq.
    destruct (aligned p) as [mp ep], (aligned q) as [mq eq].
    destruct Hp as (Hep & Hrp & Hmp & Hdp); [lia|].
    destruct Hq as (Heq & Hrq & Hmq & Hdq); [lia|].
    simpl. f_equal.
    change (Pos.compare_cont Eq mp mq) with (Z.pos mp ?= Z.pos mq).
    change (p ?= q)%positive with (Z.pos p ?= Z.pos q).
    destruct (Z.compare_spec ep eq) as [E|E|E].
    + rewrite Hmp, Hmq, <- E.
      assert (0 < 2 ^ (- ep)) as Hpow by (apply Z.pow_pos_nonneg; lia).
      destruct (Z.compare_spec (Z.pos p) (Z.pos q)) as [Hpq|Hpq|Hpq].
      * rewrite Hpq. apply Z.compare_refl.
      * apply (proj2 (Z.compare_lt_iff _ _)).
        now apply Z.mul_lt_mono_pos_r.
      * apply (proj2 (Z.compare_gt_iff _ _)).
        now apply Z.mul_lt_mono_pos_r.
    + symmetry. apply (proj2 (Z.compare_lt_iff _ _)).
      assert (2 ^ Z.pos (digits2_pos p) <= 2 ^ (Z.pos (digits2_pos q) - 1))
        by (apply Z.pow_le_mono_r; lia).
      lia.
    + symmetry. apply (proj2 (Z.compare_gt_iff _ _)).
      assert (2 ^ Z.pos (digits2_pos q) <= 2 ^ (Z.pos (digits2_pos p) - 1))
        by (apply Z.pow_le_mono_r; lia).
      lia.
Qed.

Lemma lt_of_Z a b :
  0 <= a <= Js.MAX_SAFE_INTEGER -> 0 <= b <= Js.MAX_SAFE_INTEGER ->
  Js.lt (Js.of_Z a) (Js.of_Z b) = (a <? b).
Proof.
  intros Ha Hb. unfold Js.lt, Js.IsLessThan, Z.ltb.
  rewrite SFcompare_of_Z by assumption.
  destruct (a ?= b); reflexivity.
Qed.

End SafeIntegers.

(** ** Reading back a printed integer *)

Section Reading.

Lemma digit_val_digit_char d : 0 <= d < 10 ->
  Js.digit_val 10 (Js.digit_char d) = Some d.
Proof.
  intros H.
  assert (d = 0 \/ d = 1 \/ d = 2 \/ d = 3 \/ d = 4 \/
          d = 5 \/ d = 6 \/ d = 7 \/ d = 8 \/ d = 9) as Hd by lia.
  repeat (destruct Hd as [->|Hd]; [reflexivity|]). subst d. reflexivity.
Qed.

Lemma is_digit_digit_char d : 0 <= d < 10 -> is_digit (Js.digit_char d) = true.
Proof. intros H. unfold is_digit. now rewrite digit_val_digit_char. Qed.

(** Reading what [digits_of] printed in front of [acc] shifts the value
    read so far by the digits of [n] and goes on with [acc]. *)
Lemma read_digits_digits_of fuel : forall n acc a c,
  0 <= n < 10 ^ Z.of_nat (S fuel) ->
  exists k, 0 < k /\
    Js.read_digits 10 (Js.digits_of (S fuel) n acc) a c
    = Js.read_digits 10 acc (a * 10 ^ k + n) (c + k).
Proof.
  induction fuel as [|fuel IH]; intros n acc a c Hn;
    rewrite Nat2Z.inj_succ, Z.pow_succ_r in Hn by lia;
    assert (0 <= n mod 10 < 10) as Hm by (apply Z.mod_pos_bound; lia);
    cbn [Js.digits_of]; destruct (n <? 10) eqn:E;
    try (apply Z.ltb_lt in E; exists 1; split; [lia|];
         cbn [Js.read_digits]; rewrite digit_val_digit_char by lia;
         rewrite Z.mod_small by lia; rewrite Z.pow_1_r; f_equal; ring);
    apply Z.ltb_ge in E.
  - simpl in Hn. lia.
  - destruct (IH (n / 10) (String (Js.digit_char (n mod 10)) acc) a c)
      as (k & Hk & Hread).
    { split; [apply Z.div_pos; lia|].
      apply Z.div_lt_upper_bound; lia. }
    cbn [Js.digits_of] in Hread. rewrite Hread.
    exists (k + 1). split; [lia|].
    cbn [Js.read_digits]. rewrite digit_val_digit_char by lia.
    rewrite Z.pow_add_r, Z.pow_1_r by lia. f_equal; [|lia].
    pose proof (Z.div_mod n 10 ltac:(lia)) as Hdm.
    clear Hread IH E Hn Hm. revert Hdm.
    generalize (n / 10), (n mod 10), (10 ^ k). intros q r P ->. ring.
Qed.

Lemma digits_fuel n : 0 <= n ->
  n < 10 ^ Z.of_nat (S (Z.to_nat (Z.log2 n))).
Proof.
  intros H. rewrite Nat2Z.inj_succ, Z2Nat.id by apply Z.log2_nonneg.
  destruct (Z.eq_dec n 0) as [->|Hn]; [reflexivity|].
  pose proof (Z.log2_spec n ltac:(lia)) as [_ Hhi].
  pose proof (Z.log2_nonneg n).
  assert (2 ^ Z.succ (Z.log2 n) <= 10 ^ Z.succ (Z.log2 n))
    by (apply Z.pow_le_mono_l; lia).
  lia.
Qed.

Lemma read_digits_digits n : 0 <= n ->
  exists k, 0 < k /\
    Js.read_digits 10 (Js.digits n) 0 0 = (n, k, EmptyString).
Proof.
  intros H. unfold Js.digits.
  destruct (read_digits_digits_of (Z.to_nat (Z.log2 n)) n "" 0 0)
    as (k & Hk & ->).
  - split; [lia | now apply digits_fuel].
  - exists k. split; [lia|]. reflexivity.
Qed.

Lemma all_digits_digits_of fuel : forall n acc,
  0 <= n -> all_digits acc = true ->
  all_digits (Js.digits_of fuel n acc) = true.
Proof.
  induction fuel as [|fuel IH]; intros n acc Hn Hacc;
    cbn [Js.digits_of]; [assumption|].
  assert (all_digits (String (Js.digit_char (n mod 10)) acc) = true) as H.
  { cbn [all_digits]. rewrite is_digit_digit_char, Hacc; [reflexivity|].
    apply Z.mod_pos_bound; lia. }
  destruct (n <? 10); [exact H|].
  apply IH; [apply Z.div_pos; lia | exact H].
Qed.

(** A printed integer starts with a digit and holds digits only. *)
Lemma digits_shape n : 0 <= n ->
  exists c r, Js.digits n = String c r /\
    is_digit c = true /\ all_digits r = true.
Proof.
  intros H.
  pose proof (all_digits_digits_of (S (Z.to_nat (Z.log2 n))) n "" H eq_refl)
    as Hall.
  fold (Js.digits n) in Hall.
  assert (1 <= String.length (Js.digits n))%nat as Hlen.
  { unfold Js.digits. cbn [Js.digits_of].
    destruct (n <? 10); [cbn [String.length]; lia|].
    etransitivity; [|apply digits_of_length]. cbn [String.length]. lia. }
  destruct (Js.digits n) as [|c r]; [cbn [String.length] in Hlen; lia|].
  cbn [all_digits] in Hall. apply andb_true_iff in Hall. eauto.
Qed.

End Reading.

(** ** [Number] on a printed integer *)

Section NumberOfDigits.

Lemma is_digit_inv c : is_digit c = true ->
  In c ["0"; "1"; "2"; "3"; "4"; "5"; "6"; "7"; "8"; "9"]%char.
Proof.
  destruct c as [[] [] [] [] [] [] [] []]; vm_compute; intros H;
    try discriminate H; tauto.
Qed.

Ltac each_digit H :=
  apply is_digit_inv in H; cbn [In] in H;
  repeat (destruct H as [<-|H]); [..|contradiction].

Lemma is_digit_not_ws c : is_digit c = true -> Js.is_ws c = false.
Proof. intros H. each_digit H; reflexivity. Qed.

Lemma trim_end_all_digits s : all_digits s = true -> Js.trim_end s = s.
Proof.
  induction s as [|c r IH]; [reflexivity|].
  cbn [all_digits Js.trim_end]. intros H.
  apply andb_true_iff in H as [Hc Hr].
  rewrite (IH Hr), (is_digit_not_ws c Hc). now destruct r.
Qed.

Lemma Number_all_digits c r :
  is_digit c = true -> all_digits r = true ->
  Js.Number (String c r) = Js.unsigned_decimal (String c r).
Proof.
  intros Hc Hr. unfold Js.Number. cbn [Js.trim_start].
  rewrite (is_digit_not_ws c Hc), trim_end_all_digits
    by (cbn [all_digits]; now rewrite Hc, Hr).
  each_digit Hc; try reflexivity.
  destruct r as [|c2 r2]; [reflexivity|].
  cbn [all_digits] in Hr. apply andb_true_iff in Hr as [Hc2 _].
  each_digit Hc2; reflexivity.
Qed.

Lemma unsigned_decimal_digits n : 0 <= n ->
  Js.unsigned_decimal (Js.digits n) = Js.of_Z n.
Proof.
  intros H. unfold Js.unsigned_decimal.
  destruct (read_digits_digits n H) as (k & Hk & ->).
  destruct (digits_shape n H) as (c & r & -> & Hc & _).
  assert (String.eqb (String c r) "Infinity" = false) as ->
    by (each_digit Hc; reflexivity).
  destruct (0 <? k + 0) eqn:E; [|apply Z.ltb_ge in E; lia].
  cbn [Js.read_exponent]. unfold Js.of_decimal.
  destruct n as [|p|p]; [reflexivity| |lia].
  replace (0 - 0) with 0 by reflexivity.
  cbn [Z.leb Z.compare]. now rewrite Z.pow_0_r, Z.mul_1_r.
Qed.

Lemma Number_ToString n : 0 <= n -> Js.Number (Js.ToString n) = Js.of_Z n.
Proof.
  intros H. rewrite ToString_nonneg by assumption.
  destruct (digits_shape n H) as (c & r & Heq & Hc & Hr).
  rewrite Heq, Number_all_digits, <- Heq by assumption.
  now apply unsigned_decimal_digits.
Qed.

Lemma ToString_not_empty n : 0 <= n -> String.eqb (Js.ToString n) "" = false.
Proof.
  intros H. rewrite ToString_nonneg by assumption.
  destruct (digits_shape n H) as (c & r & -> & _). reflexivity.
Qed.

End NumberOfDigits.

(** ** Best time *)

Section BestTime.

Implicit Types (w : World) (p : LatLng) (now s b : Z).

Lemma getBestSeconds_stored w b :
  0 <= b <= Js.MAX_SAFE_INTEGER ->
  localStorage w !! BEST_KEY = Some (Js.ToString b) ->
  getBestSeconds w = Some (Js.of_Z b).
Proof.
  intros Hb Hraw. unfold getBestSeconds. rewrite Hraw.
  rewrite ToString_not_empty, Number_ToString, of_Z_finite by lia.
  reflexivity.
Qed.

Lemma finishGame_storage now w :
  localStorage (finishGame now w)
  = if beats (elapsedSeconds now w) (getBestSeconds w)
    then <[ BEST_KEY := Js.ToString (elapsedSeconds now w) ]> (localStorage w)
    else localStorage w.
Proof.
  unfold finishGame.
  change (elapsedSeconds now (stopTimer w)) with (elapsedSeconds now w).
  change (getBestSeconds (stopTimer w)) with (getBestSeconds w).
  destruct (beats _ _); reflexivity.
Qed.

(** The answer to the last question ends the round: what it leaves in
    store is what [finishGame] leaves. *)
Lemma handleAnswer_last_storage p now w :
  index w = TOTAL_QUESTIONS - 1 ->
  localStorage (handleAnswer p now w) = localStorage (finishGame now w).
Proof.
  intros H. unfold handleAnswer.
  destruct (location_at_is_Some w) as [loc ->];
    [unfold TOTAL_QUESTIONS in *; lia|].
  set (w3 := set_index _ _).
  assert (index w3 = TOTAL_QUESTIONS /\ localStorage w3 = localStorage w /\
          elapsedSeconds now w3 = elapsedSeconds now w /\
          getBestSeconds w3 = getBestSeconds w) as (Hi & Hs & He & Hb).
  { unfold w3, TOTAL_QUESTIONS in *.
    destruct (pointInBounds _ _); repeat split; try reflexivity;
      simpl; lia. }
  rewrite Hi. change (TOTAL_QUESTIONS >=? TOTAL_QUESTIONS) with true.
  now rewrite !finishGame_storage, Hs, He, Hb.
Qed.

End BestTime.

(** C10: a best time written by [setBestSeconds] is read back by
    [getBestSeconds]: for every integer [s] from 0 up to the largest safe
    integer the stored text parses to the number [s]. *)
Theorem best_seconds_roundtrip (s : Z) (w : World) :
  0 <= s <= Js.MAX_SAFE_INTEGER ->
  getBestSeconds (setBestSeconds s w) = Some (Js.of_Z s) /\
  Js.to_Z (Js.of_Z s) = Some s.
Proof.
  intros H. split; [|now apply to_Z_of_Z].
  apply getBestSeconds_stored; [assumption|].
  unfold setBestSeconds. cbn [localStorage set_localStorage].
  apply lookup_insert_eq.
Qed.

Lemma best_seconds_roundtrip_witness :
  0 <= 0 <= Js.MAX_SAFE_INTEGER /\
  getBestSeconds (setBestSeconds 0 (initial empty)) = Some (Js.of_Z 0) /\
  Js.to_Z (Js.of_Z 0) = Some 0.
Proof.
  split; [unfold Js.MAX_SAFE_INTEGER; lia|].
  apply (best_seconds_roundtrip 0 (initial empty)).
  unfold Js.MAX_SAFE_INTEGER; lia.
Defined.

(** C3: the answer to the last question leaves in store what
    [finishGame] leaves, and when a round finishes after [s] seconds the
    best time in store is overwritten with [s] if [getBestSeconds] finds
    none or [s] is strictly below the one it finds, and the store is
    left as it was when [s] equals or exceeds it; a finish with nothing
    in store always writes.  For a best time [b] the program stored
    itself the test is [s < b] on the integers. *)
Theorem finishGame_best_time (now : Z) (w : World) :
  let s := elapsedSeconds now w in
  let w' := finishGame now w in
  let written := <[ BEST_KEY := Js.ToString s ]> (localStorage w) in
  (forall p, index w = TOTAL_QUESTIONS - 1 ->
     localStorage (handleAnswer p now w) = localStorage w') /\
  (getBestSeconds w = None -> localStorage w' = written) /\
  (forall best, getBestSeconds w = Some best ->
     Js.lt (Js.of_Z s) best = true -> localStorage w' = written) /\
  (forall best, getBestSeconds w = Some best ->
     Js.lt (Js.of_Z s) best = false -> localStorage w' = localStorage w) /\
  (forall best, getBestSeconds w = Some best ->
     Js.ge (Js.of_Z s) best = true -> localStorage w' = localStorage w) /\
  (localStorage w !! BEST_KEY = None ->
     localStorage w' !! BEST_KEY = Some (Js.ToString s)) /\
  (forall b, 0 <= b <= Js.MAX_SAFE_INTEGER -> 0 <= s <= Js.MAX_SAFE_INTEGER ->
     localStorage w !! BEST_KEY = Some (Js.ToString b) ->
     localStorage w' = if s <? b then written else localStorage w).
Proof.
  intros s w' written. split; [intros p; apply handleAnswer_last_storage|].
  unfold w'. rewrite finishGame_storage. fold s written.
  repeat split.
  - intros ->. reflexivity.
  - intros best -> Hlt. cbn [beats]. now rewrite Hlt.
  - intros best -> Hlt. cbn [beats]. now rewrite Hlt.
  - intros best -> Hge. cbn [beats]. unfold Js.lt, Js.ge in *.
    destruct (Js.IsLessThan (Js.of_Z s) best) as [[]|];
      try discriminate; reflexivity.
  - intros Hnone. unfold getBestSeconds. rewrite Hnone. cbn [beats].
    apply lookup_insert_eq.
  - intros b Hb Hs Hraw. rewrite (getBestSeconds_stored w b Hb Hraw).
    cbn [beats]. now rewrite lt_of_Z.
Qed.

Lemma finishGame_best_time_witness :
  0 <= 8 <= Js.MAX_SAFE_INTEGER /\
  elapsedSeconds 9500 sample_page = 8 /\
  localStorage sample_page !! BEST_KEY = Some (Js.ToString 8) /\
  localStorage (finishGame 9500 sample_page) = localStorage sample_page.
Proof.
  assert (0 <= 8 <= Js.MAX_SAFE_INTEGER) as H8
    by (unfold Js.MAX_SAFE_INTEGER; lia).
  split; [exact H8|]. split; [reflexivity|]. split; [reflexivity|].
  apply (proj2 (proj2 (proj2 (proj2 (proj2 (proj2
           (finishGame_best_time 9500 sample_page)))))) 8 H8 H8).
  reflexivity.
Defined.

(** * Further properties *)

(** ** The order of the numbers, by keys *)

Section Keys.

Implicit Types x y a b : Js.number.

Lemma SFcompare_key x y :
  match SFcompare x y with
  | Some Lt => key_lt (key x) (key y)
  | Some Eq => key x = key y
  | Some Gt => key_lt (key y) (key x)
  | None => True
  end.
Proof.
  destruct x as [sx|sx| |sx mx ex], y as [sy|sy| |sy my ey];
    try destruct sx; try destruct sy; cbn; try lia; try reflexivity;
    change (Pos.compare_cont Eq mx my) with (mx ?= my)%positive;
    destruct (Z.compare_spec ex ey); cbn; try lia;
    destruct (Pos.compare_spec mx my); cbn; try lia;
    subst; reflexivity.
Qed.

Lemma lt_key a b : Js.lt a b = true -> key_lt (key a) (key b).
Proof.
  unfold Js.lt, Js.IsLessThan. pose proof (SFcompare_key a b) as H.
  destruct (SFcompare a b) as [[]|]; try discriminate. auto.
Qed.

Lemma ge_key x b : Js.ge x b = true -> key_le (key b) (key x).
Proof.
  unfold Js.ge, Js.IsLessThan, key_le. pose proof (SFcompare_key x b) as H.
  destruct (SFcompare x b) as [[]|]; try discriminate; auto.
Qed.

Lemma le_key x a : Js.le x a = true -> key_le (key x) (key a).
Proof. apply ge_key. Qed.

(** No number is at or above [b], at or below [a], when [a < b]. *)
Lemma between_absurd x a b :
  Js.ge x b = true -> Js.le x a = true -> Js.lt a b = true -> False.
Proof.
  intros Hb Ha Hab. apply ge_key in Hb. apply le_key in Ha.
  apply lt_key in Hab. unfold key_le, key_lt in *.
  destruct (key x) as [[cx ex] mx], (key a) as [[ca ea] ma],
    (key b) as [[cb eb] mb].
  destruct Hb as [Hb|Hb], Ha as [Ha|Ha];
    try (injection Hb as -> -> ->); try (injection Ha as -> -> ->); lia.
Qed.

End Keys.

(** ** More on bounds *)

Section MoreBounds.

Implicit Types (x a c : Js.number) (b : Bounds) (p : LatLng).

Lemma SFcompare_Eq_r x y z :
  SFcompare x y = Some Eq -> SFcompare z x = SFcompare z y.
Proof.
  intros H. rewrite (SFcompare_antisym x z), (SFcompare_antisym y z).
  now rewrite (SFcompare_Eq_l x y z H).
Qed.

Lemma ge_cases a c : Js.ge a c = true ->
  SFcompare a c = Some Eq \/ SFcompare a c = Some Gt.
Proof.
  unfold Js.ge, Js.IsLessThan.
  destruct (SFcompare a c) as [[]|]; try discriminate; auto.
Qed.

Lemma le_Math_max_ordered x a c :
  Js.ge a c = true -> Js.le x (Js.Math_max a c) = Js.le x a.
Proof.
  intros H. rewrite Math_max_cases.
  destruct (ge_cases a c H) as [-> | ->]; [|reflexivity].
  destruct c as [[]| | |], a as [[]| | |]; try reflexivity;
    destruct x; reflexivity.
Qed.

Lemma ge_Math_min_ordered x a c :
  Js.ge a c = true -> Js.ge x (Js.Math_min a c) = Js.ge x c.
Proof.
  intros H. rewrite Math_min_cases.
  destruct (ge_cases a c H) as [He | ->]; [rewrite He|reflexivity].
  unfold Js.ge, Js.IsLessThan.
  rewrite <- (SFcompare_Eq_r a c x He).
  destruct c as [[]| | |], a as [[]| | |]; try reflexivity;
    destruct x; reflexivity.
Qed.

Lemma strict_eq_Math_max_ordered a c :
  Js.ge a c = true -> Js.strict_eq (Js.Math_max a c) a = true.
Proof.
  intros H. unfold Js.strict_eq, SFeqb. rewrite Math_max_cases.
  assert (SFcompare a a = Some Eq) as Hr.
  { apply SFcompare_refl. destruct (ge_cases a c H) as [He|He];
      destruct a; try reflexivity; discriminate He. }
  destruct (ge_cases a c H) as [-> | ->]; [|now rewrite Hr].
  destruct c as [[]| | |], a as [[]| | |]; try (now rewrite Hr); reflexivity.
Qed.

Lemma strict_eq_Math_min_ordered a c :
  Js.ge a c = true -> Js.strict_eq (Js.Math_min a c) c = true.
Proof.
  intros H. unfold Js.strict_eq, SFeqb. rewrite Math_min_cases.
  assert (SFcompare c c = Some Eq) as Hr.
  { apply SFcompare_refl. destruct (ge_cases a c H) as [He|He];
      destruct c; try reflexivity; destruct a; discriminate He. }
  destruct (ge_cases a c H) as [He | ->]; [rewrite He|now rewrite Hr].
  destruct c as [[]| | |], a as [[]| | |];
    try (now rewrite He); reflexivity.
Qed.

Lemma Math_max_nan a c :
  Js.isNaN a || Js.isNaN c = true -> Js.Math_max a c = Js.NaN.
Proof. unfold Js.Math_max. now intros ->. Qed.

Lemma Math_min_nan a c :
  Js.isNaN a || Js.isNaN c = true -> Js.Math_min a c = Js.NaN.
Proof. unfold Js.Math_min. now intros ->. Qed.

Lemma le_nan x : Js.le x Js.NaN = false.
Proof. now destruct x. Qed.

Lemma ge_nan x : Js.ge x Js.NaN = false.
Proof. now destruct x. Qed.

Lemma Math_max_finite a c :
  Js.isFinite a = true -> Js.isFinite c = true ->
  Js.isFinite (Js.Math_max a c) = true.
Proof.
  intros Ha Hc. rewrite Math_max_cases.
  destruct (SFcompare a c) as [[]|] eqn:E; try assumption.
  - destruct c as [[]| | |], a as [[]| | |]; try assumption; reflexivity.
  - destruct a, c; discriminate.
Qed.

Lemma Math_min_finite a c :
  Js.isFinite a = true -> Js.isFinite c = true ->
  Js.isFinite (Js.Math_min a c) = true.
Proof.
  intros Ha Hc. rewrite Math_min_cases.
  destruct (SFcompare a c) as [[]|] eqn:E; try assumption.
  - destruct c as [[]| | |], a as [[]| | |]; try assumption; reflexivity.
  - destruct a, c; discriminate.
Qed.

(** A value between two finite numbers is a finite number. *)
Lemma between_finite (v : Js.value) a c :
  Js.isFinite a = true -> Js.isFinite c = true ->
  Js.vle v a = true -> Js.vge v c = true -> finite_coordinate v.
Proof.
  unfold Js.vle, Js.vge. intros Ha Hc Hle Hge.
  destruct v as [|x]; [destruct a; discriminate Hle|].
  exists x. split; [reflexivity|]. simpl in Hle, Hge.
  destruct x as [sx|[]| |sx mx ex]; try reflexivity.
  - destruct c; try discriminate Hc; cbv in Hge; discriminate Hge.
  - destruct a; try discriminate Ha; cbv in Hle; discriminate Hle.
  - destruct a; cbv in Hle; discriminate Hle.
Qed.

Lemma pointInBounds_true p b :
  pointInBounds p b = true ->
  Js.vle (lat p) (north (normalizeBounds b)) = true /\
  Js.vge (lat p) (south (normalizeBounds b)) = true /\
  Js.vle (lng p) (east (normalizeBounds b)) = true /\
  Js.vge (lng p) (west (normalizeBounds b)) = true.
Proof.
  unfold pointInBounds. rewrite !andb_true_iff. tauto.
Qed.

Lemma separated_disjoint p b1 b2 :
  separated b1 b2 = true ->
  pointInBounds p b1 = true -> pointInBounds p b2 = false.
Proof.
  unfold separated. intros Hsep H1.
  destruct (pointInBounds p b2) eqn:H2; [exfalso|reflexivity].
  apply pointInBounds_true in H1 as (Hn1 & Hs1 & He1 & Hw1).
  apply pointInBounds_true in H2 as (Hn2 & Hs2 & He2 & Hw2).
  unfold Js.vle, Js.vge in *.
  repeat (apply orb_true_iff in Hsep as [Hsep|Hsep]);
    eauto using between_absurd.
Qed.

Lemma LOCATIONS_separated i j li lj :
  LOCATIONS !! i = Some li -> LOCATIONS !! j = Some lj -> i <> j ->
  separated (bounds li) (bounds lj) = true.
Proof.
  intros Hi Hj Hne.
  pose proof (lookup_lt_Some _ _ _ Hi) as Hli.
  pose proof (lookup_lt_Some _ _ _ Hj) as Hlj.
  rewrite LOCATIONS_length in Hli, Hlj.
  destruct i as [|[|[|[|[|i]]]]]; try lia;
    destruct j as [|[|[|[|[|j]]]]]; try lia; try congruence;
    vm_compute in Hi, Hj; injection Hi as <-; injection Hj as <-;
    vm_compute; reflexivity.
Qed.

End MoreBounds.

(** X1: for a box whose edges are given in order, normalizing returns
    numerically the same edges, and [pointInBounds] is the four
    comparisons of the point against the edges as given. *)
Theorem pointInBounds_ordered_box (p : LatLng) (b : Bounds) :
  ordered b ->
  Js.strict_eq (north (normalizeBounds b)) (north b) = true /\
  Js.strict_eq (south (normalizeBounds b)) (south b) = true /\
  Js.strict_eq (east (normalizeBounds b)) (east b) = true /\
  Js.strict_eq (west (normalizeBounds b)) (west b) = true /\
  pointInBounds p b
  = Js.vle (lat p) (north b) && Js.vge (lat p) (south b) &&
    Js.vle (lng p) (east b) && Js.vge (lng p) (west b).
Proof.
  intros [Hns Hew]. unfold pointInBounds, normalizeBounds, Js.vle, Js.vge.
  cbn [north south east west Js.ToNumber].
  rewrite !le_Math_max_ordered, !ge_Math_min_ordered by assumption.
  repeat split;
    auto using strict_eq_Math_max_ordered, strict_eq_Math_min_ordered.
Qed.

Lemma pointInBounds_ordered_box_witness :
  ordered ordered_box /\
  pointInBounds (point_of 7 (-102)) ordered_box
  = Js.vle (lat (point_of 7 (-102))) (north ordered_box) &&
    Js.vge (lat (point_of 7 (-102))) (south ordered_box) &&
    Js.vle (lng (point_of 7 (-102))) (east ordered_box) &&
    Js.vge (lng (point_of 7 (-102))) (west ordered_box).
Proof.
  assert (ordered ordered_box) as H by (split; reflexivity).
  split; [exact H|].
  apply (pointInBounds_ordered_box (point_of 7 (-102)) ordered_box H).
Defined.

(** X2: a box one of whose edges is NaN contains no point. *)
Theorem pointInBounds_nan_edge (p : LatLng) (b : Bounds) :
  nan_edged b = true -> pointInBounds p b = false.
Proof.
  unfold nan_edged, pointInBounds, normalizeBounds, Js.vle, Js.vge.
  cbn [north south east west Js.ToNumber]. intros H.
  apply orb_true_iff in H as [H|Hw]; [apply orb_true_iff in H as [H|He]|].
  - rewrite (Math_max_nan _ _ H), le_nan. reflexivity.
  - rewrite (Math_max_nan (east b) (west b)) by (now rewrite He).
    rewrite le_nan, andb_false_r. reflexivity.
  - rewrite (Math_min_nan (east b) (west b))
      by (rewrite Hw; apply orb_true_r).
    rewrite ge_nan, andb_false_r. reflexivity.
Qed.

Lemma pointInBounds_nan_edge_witness :
  nan_edged (mkBounds (Js.of_Z 10) Js.NaN (Js.of_Z 3) (Js.of_Z 1)) = true /\
  pointInBounds (point_of 7 2)
                (mkBounds (Js.of_Z 10) Js.NaN (Js.of_Z 3) (Js.of_Z 1)) = false.
Proof.
  split; [reflexivity|].
  apply (pointInBounds_nan_edge (point_of 7 2)). reflexivity.
Defined.

(** X3: only a point with two finite numbers for coordinates is inside a
    box of finite edges: [undefined], NaN and the infinities are
    outside. *)
Theorem pointInBounds_finite_coordinates (p : LatLng) (b : Bounds) :
  finite_box b = true -> pointInBounds p b = true ->
  finite_coordinate (lat p) /\ finite_coordinate (lng p).
Proof.
  unfold finite_box. rewrite !andb_true_iff. intros [[[Hn Hs] He] Hw] Hin.
  apply pointInBounds_true in Hin as (Hle1 & Hge1 & Hle2 & Hge2).
  cbn [normalizeBounds north south east west] in *.
  split.
  - exact (between_finite _ _ _ (Math_max_finite _ _ Hn Hs)
             (Math_min_finite _ _ Hn Hs) Hle1 Hge1).
  - exact (between_finite _ _ _ (Math_max_finite _ _ He Hw)
             (Math_min_finite _ _ He Hw) Hle2 Hge2).
Qed.

Lemma pointInBounds_finite_coordinates_witness :
  finite_box reversed_box = true /\
  pointInBounds (point_of 7 (-102)) reversed_box = true /\
  finite_coordinate (lat (point_of 7 (-102))) /\
  finite_coordinate (lng (point_of 7 (-102))).
Proof.
  split; [reflexivity|]. split; [reflexivity|].
  apply (pointInBounds_finite_coordinates (point_of 7 (-102)) reversed_box);
    reflexivity.
Defined.

(** X4: the rectangles of two different locations have no point in
    common: a click that is right for one question is wrong for every
    other. *)
Theorem locations_do_not_overlap (p : LatLng) (i j : nat)
    (li lj : Location) :
  LOCATIONS !! i = Some li -> LOCATIONS !! j = Some lj -> i <> j ->
  pointInBounds p (bounds li) = true -> pointInBounds p (bounds lj) = false.
Proof.
  intros Hi Hj Hne. apply separated_disjoint.
  now apply (LOCATIONS_separated i j).
Qed.

Lemma locations_do_not_overlap_witness :
  match LOCATIONS !! 0%nat, LOCATIONS !! 1%nat with
  | Some li, Some lj =>
      pointInBounds (fst (hd (point_of 0 0, 0) sample_round)) (bounds li) = true /\
      pointInBounds (fst (hd (point_of 0 0, 0) sample_round)) (bounds lj) = false
  | _, _ => False
  end.
Proof.
  destruct (LOCATIONS !! 0%nat) as [li|] eqn:Hi; [|discriminate Hi].
  destruct (LOCATIONS !! 1%nat) as [lj|] eqn:Hj; [|discriminate Hj].
  assert (pointInBounds (fst (hd (point_of 0 0, 0) sample_round)) (bounds li)
          = true) as Hin
    by (vm_compute in Hi; injection Hi as <-; reflexivity).
  split; [exact Hin|].
  apply (locations_do_not_overlap _ 0 1 li lj Hi Hj); [discriminate|exact Hin].
Defined.

(** ** More on the round *)

Section MoreRound.

Implicit Types (w : World) (p : LatLng) (now : Z).

(** The state on which [handleAnswer] decides whether the round is
    over keeps the clock, the store and the handles of [w]. *)
Lemma handleAnswer_unfold p now w loc :
  location_at (index w) = Some loc ->
  exists w3,
    handleAnswer p now w
    = (if index w3 >=? TOTAL_QUESTIONS then finishGame now w3 else w3) /\
    index w3 = index w + 1 /\
    correct w3 = correct w + (if pointInBounds p (bounds loc) then 1 else 0) /\
    startedAtMs w3 = startedAtMs w /\ timerId w3 = timerId w /\
    intervals w3 = intervals w /\ nextHandle w3 = nextHandle w /\
    localStorage w3 = localStorage w /\
    currentRect w3 = Some (mkRectangle (normalizeBounds (bounds loc))
                                       (pointInBounds p (bounds loc))) /\
    clickMarker w3 = Some p.
Proof.
  intros H. unfold handleAnswer. rewrite H.
  eexists. split; [reflexivity|].
  destruct (pointInBounds p (bounds loc)); repeat split; try reflexivity;
    cbn [correct index set_index set_correct drawFeedback clearFeedback
         set_feedback]; lia.
Qed.

Lemma handleAnswer_not_last p now w :
  index w <> TOTAL_QUESTIONS - 1 ->
  localStorage (handleAnswer p now w) = localStorage w /\
  startedAtMs (handleAnswer p now w) = startedAtMs w /\
  timerId (handleAnswer p now w) = timerId w /\
  intervals (handleAnswer p now w) = intervals w /\
  nextHandle (handleAnswer p now w) = nextHandle w.
Proof.
  intros Hne. destruct (location_at (index w)) as [loc|] eqn:Hloc.
  - destruct (handleAnswer_unfold p now w loc Hloc)
      as (w3 & -> & Hi & _ & Hs & Ht & Hv & Hn & Hl & _).
    destruct (location_at_Some w loc Hloc) as [Hr _].
    unfold TOTAL_QUESTIONS in *.
    destruct (index w3 >=? 5) eqn:E; [apply Z.geb_le in E; lia|].
    auto.
  - unfold handleAnswer. rewrite Hloc. auto.
Qed.

Lemma step_storage w e :
  localStorage (step w e) = localStorage w \/
  exists s, localStorage (step w e)
            = <[ BEST_KEY := Js.ToString s ]> (localStorage w).
Proof.
  destruct e as [now|p now]; [left; reflexivity|]. cbn [step].
  destruct (location_at (index w)) as [loc|] eqn:Hloc.
  - destruct (handleAnswer_unfold p now w loc Hloc)
      as (w3 & -> & _ & _ & _ & _ & _ & _ & Hl & _).
    destruct (index w3 >=? TOTAL_QUESTIONS); [|now left].
    rewrite finishGame_storage, Hl.
    destruct (beats _ _); [right; eauto | now left].
  - left. unfold handleAnswer. now rewrite Hloc.
Qed.

Lemma getBestSeconds_ext w1 w2 :
  localStorage w1 = localStorage w2 -> getBestSeconds w1 = getBestSeconds w2.
Proof. unfold getBestSeconds. now intros ->. Qed.

Lemma elapsedSeconds_ext now w1 w2 :
  startedAtMs w1 = startedAtMs w2 ->
  elapsedSeconds now w1 = elapsedSeconds now w2.
Proof. unfold elapsedSeconds. now intros ->. Qed.

Lemma run_guesses_before_last gs : forall w,
  0 <= index w ->
  index w + Z.of_nat (length gs) < TOTAL_QUESTIONS ->
  localStorage (run w (guesses gs)) = localStorage w.
Proof.
  induction gs as [|g gs IH]; intros w H0 Hlen; [reflexivity|].
  cbn [guesses map run fold_left step length] in *.
  fold (guesses gs). fold (run (handleAnswer (fst g) (snd g) w) (guesses gs)).
  destruct (location_at_is_Some w) as [loc Hloc]; [lia|].
  destruct (handleAnswer_counters (fst g) (snd g) w loc Hloc) as [Hi _].
  destruct (handleAnswer_not_last (fst g) (snd g) w) as [Hl _];
    [unfold TOTAL_QUESTIONS in *; lia|].
  rewrite IH, Hl by lia. reflexivity.
Qed.

Lemma TimerInv_initial ls : TimerInv (initial ls).
Proof.
  unfold TimerInv, TOTAL_QUESTIONS; cbn. repeat split; try done.
Qed.

Lemma TimerInv_step w e : TimerInv w -> TimerInv (step w e).
Proof.
  intros (Hiv & Hh & Hfin). destruct e as [now|p now]; cbn [step].
  - unfold TimerInv, resetGame, startTimer, stopTimer, TOTAL_QUESTIONS.
    cbn. split; [|split].
    + rewrite Hiv. destruct (timerId w);
        now rewrite ?difference_diag_L, union_empty_r_L.
    + intros h [= <-]. lia.
    + lia.
  - destruct (location_at (index w)) as [loc|] eqn:Hloc.
    + destruct (handleAnswer_unfold p now w loc Hloc)
        as (w3 & -> & Hi & _ & _ & Ht & Hv & Hn & _).
      destruct (index w3 >=? TOTAL_QUESTIONS) eqn:E.
      * unfold TimerInv, finishGame.
        destruct (beats _ _); cbn; rewrite Hv, Ht, Hiv;
          (split; [destruct (timerId w);
                     now rewrite ?difference_diag_L|]);
          (split; [intros h; discriminate | reflexivity]).
      * rewrite Z.geb_leb in E. apply Z.leb_gt in E.
        unfold TimerInv. rewrite Hv, Ht, Hn.
        split; [exact Hiv|]. split; [exact Hh|]. lia.
    + unfold handleAnswer. rewrite Hloc. now repeat split.
Qed.

Lemma FeedbackInv_step w e : FeedbackInv w -> FeedbackInv (step w e).
Proof.
  intros H. destruct e as [now|p now]; cbn [step].
  - unfold FeedbackInv. cbn. exact I.
  - destruct (location_at (index w)) as [loc|] eqn:Hloc.
    + destruct (handleAnswer_unfold p now w loc Hloc)
        as (w3 & -> & Hi & _ & _ & _ & _ & _ & _ & Hr & Hm).
      assert (FeedbackInv w3) as H3.
      { unfold FeedbackInv. rewrite Hr, Hm, Hi.
        exists loc. split; [|reflexivity].
        now replace (index w + 1 - 1) with (index w) by lia. }
      destruct (index w3 >=? TOTAL_QUESTIONS); [|exact H3].
      unfold finishGame. destruct (beats _ _); exact H3.
    + unfold handleAnswer. now rewrite Hloc.
Qed.

End MoreRound.

Section Scores.

Implicit Types (p : LatLng) (locs : list Location).

Lemma contained_same_spot_outside p locs : forall times,
  (forall loc, loc ∈ locs -> pointInBounds p (bounds loc) = false) ->
  contained (same_spot p times) locs = 0.
Proof.
  induction locs as [|loc locs IH]; intros [|t times] H; try reflexivity.
  cbn [same_spot map contained fst]. fold (same_spot p times).
  rewrite (H loc) by apply list_elem_of_here.
  rewrite IH; [reflexivity|]. intros l Hl. apply H. now apply list_elem_of_further.
Qed.

Lemma contained_same_spot p locs : forall times,
  (forall i j li lj, locs !! i = Some li -> locs !! j = Some lj -> i <> j ->
                     separated (bounds li) (bounds lj) = true) ->
  contained (same_spot p times) locs <= 1.
Proof.
  induction locs as [|loc locs IH]; intros [|t times] Hsep;
    cbn [same_spot map contained fst]; try lia.
  fold (same_spot p times).
  destruct (pointInBounds p (bounds loc)) eqn:Hin.
  - rewrite contained_same_spot_outside; [lia|].
    intros l Hl. apply list_elem_of_lookup in Hl as [j Hj].
    apply (separated_disjoint p (bounds loc) (bounds l)); [|exact Hin].
    now apply (Hsep 0%nat (S j)).
  - specialize (IH times). rewrite Z.add_0_l. apply IH.
    intros i j li lj Hi Hj Hne. apply (Hsep (S i) (S j)); auto.
Qed.

Lemma contained_all gs : forall locs,
  length gs = length locs ->
  (contained gs locs = Z.of_nat (length gs) <->
   forall i g loc, gs !! i = Some g -> locs !! i = Some loc ->
                   pointInBounds (fst g) (bounds loc) = true).
Proof.
  induction gs as [|g gs IH]; intros [|loc locs] Hlen; try discriminate.
  - split; [intros _ i g loc H; discriminate H | reflexivity].
  - injection Hlen as Hlen. specialize (IH locs Hlen).
    pose proof (contained_bounds gs locs) as Hb.
    cbn [contained length]. split.
    + intros H [|i] g' loc' Hg Hl.
      * injection Hg as <-. injection Hl as <-.
        destruct (pointInBounds _ _); [reflexivity|lia].
      * apply (proj1 IH) with (i := i); auto.
        destruct (pointInBounds _ _); lia.
    + intros H. rewrite (H 0%nat g loc) by reflexivity.
      rewrite (proj2 IH); [lia|].
      intros i g' loc' Hg Hl. now apply (H (S i)).
Qed.

Lemma contained_none gs : forall locs,
  length gs = length locs ->
  (contained gs locs = 0 <->
   forall i g loc, gs !! i = Some g -> locs !! i = Some loc ->
                   pointInBounds (fst g) (bounds loc) = false).
Proof.
  induction gs as [|g gs IH]; intros [|loc locs] Hlen; try discriminate.
  - split; [intros _ i g loc H; discriminate H | reflexivity].
  - injection Hlen as Hlen. specialize (IH locs Hlen).
    pose proof (contained_bounds gs locs) as Hb.
    cbn [contained length]. split.
    + intros H [|i] g' loc' Hg Hl.
      * injection Hg as <-. injection Hl as <-.
        destruct (pointInBounds _ _); [lia|reflexivity].
      * apply (proj1 IH) with (i := i); auto.
        destruct (pointInBounds _ _); lia.
    + intros H. rewrite (H 0%nat g loc) by reflexivity.
      rewrite (proj2 IH); [lia|].
      intros i g' loc' Hg Hl. now apply (H (S i)).
Qed.

(** What a round of five guesses leaves in [correct]. *)
Lemma round_correct (w : World) (now : Z) (gs : list (LatLng * Z)) :
  length gs = 5%nat ->
  correct (run (resetGame now w) (guesses gs)) = contained gs LOCATIONS.
Proof.
  intros Hlen. destruct (resetGame_counters now w) as [Hi0 Hc0].
  destruct (run_guesses_counters gs (resetGame now w)) as [_ Hc];
    rewrite ?Hi0; unfold TOTAL_QUESTIONS; try lia.
  rewrite Hc, Hi0, Hc0. change (Z.to_nat 0) with 0%nat.
  now rewrite drop_0.
Qed.

End Scores.

(** X5: five clicks on one and the same point score at most one. *)
Theorem same_spot_scores_at_most_one (w : World) (now : Z) (p : LatLng)
    (times : list Z) :
  length times = 5%nat ->
  correct (run (resetGame now w) (guesses (same_spot p times))) <= 1.
Proof.
  intros Hlen. rewrite round_correct
    by (unfold same_spot; now rewrite length_map).
  apply contained_same_spot. apply LOCATIONS_separated.
Qed.

Lemma same_spot_scores_at_most_one_witness :
  length [2000; 3000; 4000; 5000; 6000] = 5%nat /\
  correct (run (resetGame 1000 (initial empty))
               (guesses (same_spot (fst (hd (point_of 0 0, 0) sample_round))
                                   [2000; 3000; 4000; 5000; 6000]))) <= 1.
Proof.
  split; [reflexivity|].
  apply (same_spot_scores_at_most_one (initial empty) 1000). reflexivity.
Defined.

(** X6: a round of five guesses ends with a score of 5 exactly when
    every guess is inside the rectangle of the question it answers, and
    with a score of 0 exactly when none is. *)
Theorem perfect_and_zero_score (w : World) (now : Z)
    (gs : list (LatLng * Z)) :
  length gs = 5%nat ->
  let w' := run (resetGame now w) (guesses gs) in
  (correct w' = 5 <->
   forall i g loc, gs !! i = Some g -> LOCATIONS !! i = Some loc ->
                   pointInBounds (fst g) (bounds loc) = true) /\
  (correct w' = 0 <->
   forall i g loc, gs !! i = Some g -> LOCATIONS !! i = Some loc ->
                   pointInBounds (fst g) (bounds loc) = false).
Proof.
  intros Hlen w'. unfold w'. rewrite round_correct by assumption.
  assert (length gs = length LOCATIONS) as Hl
    by now rewrite LOCATIONS_length.
  split.
  - rewrite <- (contained_all gs LOCATIONS Hl), Hlen. reflexivity.
  - apply contained_none, Hl.
Qed.

Lemma perfect_and_zero_score_witness :
  length sample_round = 5%nat /\
  (correct (run (resetGame 1000 (initial empty)) (guesses sample_round)) = 5 <->
   forall i g loc, sample_round !! i = Some g -> LOCATIONS !! i = Some loc ->
                   pointInBounds (fst g) (bounds loc) = true).
Proof.
  split; [reflexivity|].
  apply (perfect_and_zero_score (initial empty) 1000 sample_round).
  reflexivity.
Defined.

(** X7: a guess is ignored, the whole state staying as it is, exactly
    when [state.index] is not one of 0 to 4; otherwise it advances the
    index by one and the score by one or nothing. *)
Theorem guess_ignored_iff_out_of_range (p : LatLng) (now : Z) (w : World) :
  (handleAnswer p now w = w <-> ~ 0 <= index w < TOTAL_QUESTIONS) /\
  (0 <= index w < TOTAL_QUESTIONS ->
   index (handleAnswer p now w) = index w + 1 /\
   correct w <= correct (handleAnswer p now w) <= correct w + 1).
Proof.
  assert (0 <= index w < TOTAL_QUESTIONS ->
          index (handleAnswer p now w) = index w + 1 /\
          correct w <= correct (handleAnswer p now w) <= correct w + 1) as Hin.
  { intros Hr. destruct (location_at_is_Some w Hr) as [loc Hloc].
    destruct (handleAnswer_counters p now w loc Hloc) as [-> ->].
    destruct (pointInBounds _ _); lia. }
  split; [|exact Hin]. split.
  - intros Heq Hr. destruct (Hin Hr) as [Hi _]. rewrite Heq in Hi. lia.
  - intros Hout. unfold handleAnswer.
    destruct (location_at (index w)) as [loc|] eqn:Hloc; [|reflexivity].
    destruct (location_at_Some w loc Hloc) as [Hr _]. contradiction.
Qed.

Lemma guess_ignored_iff_out_of_range_witness :
  0 <= index (initial empty) < TOTAL_QUESTIONS /\
  index (handleAnswer (point_of 7 (-102)) 2000 (initial empty))
  = index (initial empty) + 1.
Proof.
  assert (0 <= index (initial empty) < TOTAL_QUESTIONS) as H
    by (unfold TOTAL_QUESTIONS; cbn; lia).
  split; [exact H|].
  apply (proj2 (guess_ignored_iff_out_of_range (point_of 7 (-102)) 2000
                  (initial empty)) H).
Defined.

(** X8: a guess that does not answer the last question leaves the store,
    the start time, the timer handle and the live intervals alone. *)
Theorem guess_before_last_keeps_store_and_timer (p : LatLng) (now : Z)
    (w : World) :
  index w <> TOTAL_QUESTIONS - 1 ->
  localStorage (handleAnswer p now w) = localStorage w /\
  startedAtMs (handleAnswer p now w) = startedAtMs w /\
  timerId (handleAnswer p now w) = timerId w /\
  intervals (handleAnswer p now w) = intervals w.
Proof.
  intros H. destruct (handleAnswer_not_last p now w H) as (? & ? & ? & ? & _).
  auto.
Qed.

Lemma guess_before_last_keeps_store_and_timer_witness :
  index sample_page <> TOTAL_QUESTIONS - 1 /\
  localStorage (handleAnswer (point_of 7 (-102)) 2000 sample_page)
  = localStorage sample_page /\
  timerId (handleAnswer (point_of 7 (-102)) 2000 sample_page)
  = timerId sample_page.
Proof.
  assert (index sample_page <> TOTAL_QUESTIONS - 1) as H by discriminate.
  split; [exact H|].
  destruct (guess_before_last_keeps_store_and_timer (point_of 7 (-102)) 2000
              sample_page H) as (Hl & _ & Ht & _).
  split; [exact Hl | exact Ht].
Defined.

(** X9: whatever the resets and guesses, the page writes to no key of
    [localStorage] but its own, and never removes the best time. *)
Theorem store_other_keys_untouched (w : World) (es : list Event) :
  (forall k, k <> BEST_KEY ->
     localStorage (run w es) !! k = localStorage w !! k) /\
  (is_Some (localStorage w !! BEST_KEY) ->
   is_Some (localStorage (run w es) !! BEST_KEY)).
Proof.
  revert w. induction es as [|e es IH]; intros w; [split; auto|].
  cbn [run fold_left]. fold (run (step w e) es).
  destruct (IH (step w e)) as [IHk IHb].
  destruct (step_storage w e) as [Heq|[s Heq]].
  - rewrite Heq in *. split; auto.
  - split.
    + intros k Hk. rewrite IHk, Heq by assumption.
      now apply lookup_insert_ne.
    + intros _. apply IHb. rewrite Heq, lookup_insert_eq. eauto.
Qed.

Lemma store_other_keys_untouched_witness :
  "theme"%string <> BEST_KEY /\
  localStorage (run (initial {[ "theme"%string := "dark"%string ]})
                    (Reset 1000 :: guesses sample_round))
    !! "theme"%string = Some "dark"%string.
Proof.
  assert ("theme"%string <> BEST_KEY) as H by discriminate.
  split; [exact H|].
  rewrite (proj1 (store_other_keys_untouched
                    (initial {[ "theme"%string := "dark"%string ]})
                    (Reset 1000 :: guesses sample_round)) _ H).
  reflexivity.
Defined.

(** X10: from the loading of the page on, through any resets and
    guesses, at most one interval is alive, the one whose handle is in
    [state.timerId]; that handle was given out before the next one to
    come; and once all questions are answered no interval is alive. *)
Theorem one_interval_at_most (ls : gmap string string) (es : list Event) :
  let w := run (initial ls) es in
  TimerInv w /\
  (phase w = Finished -> timerId w = None /\ intervals w = empty).
Proof.
  intros w.
  assert (forall es w0, TimerInv w0 -> TimerInv (run w0 es)) as Hrun.
  { clear. induction es as [|e es IH]; intros w0 H; [exact H|].
    apply IH, TimerInv_step, H. }
  pose proof (Hrun es _ (TimerInv_initial ls)) as Hw. fold w in Hw.
  split; [exact Hw|]. destruct Hw as (Hiv & _ & Hfin).
  unfold phase. destruct (index w >=? TOTAL_QUESTIONS) eqn:E.
  - rewrite Z.geb_leb in E. apply Z.leb_le in E.
    intros _. rewrite Hiv, (Hfin E). now split.
  - destruct (startedAtMs w); discriminate.
Qed.

(** X11: from the loading of the page on, the rectangle and the marker
    are on the map together or not at all, and the rectangle is the
    normalized rectangle of the question answered last, in the colour of
    the verdict on the marked click. *)
Theorem feedback_shows_last_answer (ls : gmap string string)
    (es : list Event) :
  FeedbackInv (run (initial ls) es).
Proof.
  assert (forall es w0, FeedbackInv w0 -> FeedbackInv (run w0 es)) as Hrun.
  { clear. induction es as [|e es IH]; intros w0 H; [exact H|].
    apply IH, FeedbackInv_step, H. }
  apply Hrun. exact I.
Qed.

(** ** More on the best time *)

Section MoreBestTime.

Implicit Types (w : World) (p : LatLng) (now s b : Z).

Lemma best_is_ext w1 w2 ob :
  localStorage w1 = localStorage w2 -> best_is w1 ob -> best_is w2 ob.
Proof.
  intros Heq [H|b H Hb]; [apply best_none | apply best_some];
    try rewrite <- Heq; assumption.
Qed.

Lemma no_worse_refl ob : no_worse ob ob.
Proof. destruct ob; cbn; [lia | exact I]. Qed.

Lemma no_worse_trans o1 o2 o3 :
  no_worse o1 o2 -> no_worse o2 o3 -> no_worse o1 o3.
Proof.
  destruct o1, o2, o3; cbn; try lia; try tauto.
Qed.

Lemma elapsedSeconds_bounds now w last :
  ClockInv w last -> last <= now <= MAX_TIME ->
  0 <= elapsedSeconds now w <= Js.MAX_SAFE_INTEGER.
Proof.
  unfold ClockInv, elapsedSeconds, MAX_TIME. intros Hc Hnow.
  change Js.MAX_SAFE_INTEGER with 9007199254740991.
  destruct (startedAtMs w) as [t|]; [|lia].
  specialize (Hc t eq_refl).
  destruct (t =? 0); [lia|].
  assert (0 <= (now - t) / 1000) by (apply Z.div_pos; lia).
  assert ((now - t) / 1000 <= now - t)
    by (apply Z.div_le_upper_bound; lia).
  lia.
Qed.

(** What finishing does to the best time on record. *)
Lemma finishGame_best now w ob :
  0 <= elapsedSeconds now w <= Js.MAX_SAFE_INTEGER ->
  best_is w ob ->
  exists ob', best_is (finishGame now w) ob' /\ no_worse ob' ob.
Proof.
  intros Hs Hb. pose proof (finishGame_storage now w) as Hst.
  destruct Hb as [Hnone|b Hraw Hb].
  - exists (Some (elapsedSeconds now w)). split; [|exact I].
    apply best_some; [|exact Hs]. rewrite Hst.
    unfold getBestSeconds. rewrite Hnone. cbn [beats].
    apply lookup_insert_eq.
  - rewrite (getBestSeconds_stored w b Hb Hraw) in Hst. cbn [beats] in Hst.
    rewrite lt_of_Z in Hst by assumption.
    destruct (elapsedSeconds now w <? b) eqn:E.
    + apply Z.ltb_lt in E. exists (Some (elapsedSeconds now w)).
      split; [|cbn; lia].
      apply best_some; [|exact Hs]. rewrite Hst. apply lookup_insert_eq.
    + exists (Some b). split; [|cbn; lia].
      apply best_some; [|exact Hb]. now rewrite Hst.
Qed.

Lemma step_best w e last ob :
  0 <= last -> ClockInv w last ->
  last <= event_time e <= MAX_TIME -> best_is w ob ->
  ClockInv (step w e) (event_time e) /\
  exists ob', best_is (step w e) ob' /\ no_worse ob' ob.
Proof.
  intros H0 Hc Ht Hb. destruct e as [now|p now]; cbn [step event_time] in *.
  - split.
    + intros t [= <-]. lia.
    + exists ob. split; [|apply no_worse_refl].
      now apply (best_is_ext w).
  - assert (ClockInv (handleAnswer p now w) now) as Hc'.
    { intros t. rewrite handleAnswer_startedAtMs. intros Hst.
      specialize (Hc t Hst). lia. }
    split; [exact Hc'|].
    destruct (location_at (index w)) as [loc|] eqn:Hloc.
    + destruct (handleAnswer_unfold p now w loc Hloc)
        as (w3 & -> & _ & _ & Hs & _ & _ & _ & Hl & _).
      destruct (index w3 >=? TOTAL_QUESTIONS).
      * apply finishGame_best.
        -- apply (elapsedSeconds_bounds now w3 last); [|exact Ht].
           intros t. rewrite Hs. apply Hc.
        -- now apply (best_is_ext w).
      * exists ob. split; [|apply no_worse_refl].
        now apply (best_is_ext w).
    + unfold handleAnswer. rewrite Hloc.
      exists ob. split; [exact Hb | apply no_worse_refl].
Qed.

Lemma run_best es : forall w last ob,
  0 <= last -> ClockInv w last -> chronological last es -> best_is w ob ->
  exists ob', best_is (run w es) ob' /\ no_worse ob' ob.
Proof.
  induction es as [|e es IH]; intros w last ob H0 Hc Hch Hb.
  - exists ob. split; [exact Hb | apply no_worse_refl].
  - destruct Hch as (Hle & Hmax & Hch).
    destruct (step_best w e last ob H0 Hc (conj Hle Hmax) Hb)
      as (Hc' & ob1 & Hb1 & Hw1).
    destruct (IH (step w e) (event_time e) ob1) as (ob2 & Hb2 & Hw2);
      [lia | exact Hc' | exact Hch | exact Hb1 |].
    exists ob2. split; [exact Hb2|].
    now apply (no_worse_trans ob2 ob1 ob).
Qed.

Lemma trim_start_all_ws raw : all_ws raw = true -> Js.trim_start raw = "".
Proof.
  induction raw as [|c r IH]; [reflexivity|].
  cbn [all_ws Js.trim_start]. intros H.
  apply andb_true_iff in H as [-> Hr]. now apply IH.
Qed.

(** The number of a non-negative integer is not below zero. *)
Lemma of_Z_nonneg_not_lt_zero s x :
  0 <= s -> Js.strict_eq x Js.pos_zero = true ->
  Js.lt (Js.of_Z s) x = false.
Proof.
  intros Hs Hx.
  assert (x = S754_zero false \/ x = S754_zero true) as Hz.
  { destruct x as [[]|[]| |[]]; try discriminate Hx; auto. }
  assert (forall y, Js.lt y (S754_zero false) = false ->
                    Js.lt y x = false) as Hlt
    by (intros y Hy; destruct Hz as [-> | ->]; [exact Hy|];
        destruct y; exact Hy).
  apply Hlt. clear Hx Hz Hlt x.
  destruct s as [|q|q]; [reflexivity| |lia].
  unfold Js.of_Z, binary_normalize, binary_round.
  destruct (shl_align _ _ _) as [mz ez].
  unfold binary_round_aux.
  destruct (shr_fexp _ _ _ _ _) as [mrs1 e1].
  destruct (shr_fexp _ _ _ _ _) as [mrs2 e2].
  destruct (shr_m mrs2); [reflexivity| |reflexivity].
  destruct (e2 <=? Js.emax - Js.prec); reflexivity.
Qed.

End MoreBestTime.

(** X12: as long as the clock does not run backwards, no sequence of
    resets and guesses makes the best time in store worse: a best time
    the program wrote stays one the program wrote and never grows, and
    an empty store stays empty or receives one. *)
Theorem best_time_never_gets_worse (ls : gmap string string)
    (es : list Event) (ob : option Z) :
  chronological 0 es -> best_is (initial ls) ob ->
  exists ob', best_is (run (initial ls) es) ob' /\ no_worse ob' ob.
Proof.
  intros Hch Hb. apply (run_best es (initial ls) 0 ob); try assumption.
  - lia.
  - intros t H. discriminate H.
Qed.

Lemma best_time_never_gets_worse_witness :
  chronological 0 (Reset 1000 :: guesses sample_round) /\
  best_is (initial {[ BEST_KEY := "8"%string ]}) (Some 8) /\
  exists ob',
    best_is (run (initial {[ BEST_KEY := "8"%string ]})
                 (Reset 1000 :: guesses sample_round)) ob' /\
    no_worse ob' (Some 8).
Proof.
  assert (chronological 0 (Reset 1000 :: guesses sample_round)) as Hch
    by (cbv [chronological guesses sample_round map event_time fst snd
             MAX_TIME]; lia).
  assert (best_is (initial {[ BEST_KEY := "8"%string ]}) (Some 8)) as Hb
    by (apply best_some; [reflexivity | unfold Js.MAX_SAFE_INTEGER; lia]).
  split; [exact Hch|]. split; [exact Hb|].
  apply (best_time_never_gets_worse _ _ _ Hch Hb).
Defined.

(** X13: a whole round, from the reset at [t0] to the fifth guess at
    [t], is timed from the reset to the last guess, whatever the times
    of the guesses in between: the store ends up holding
    floor((t - t0) / 1000) if that beats the best time found at the
    reset, and is as it was otherwise; with no best time in store the
    round's time is always recorded. *)
Theorem round_records_its_duration (w : World) (t0 : Z)
    (gs4 : list (LatLng * Z)) (p : LatLng) (t : Z) :
  length gs4 = 4%nat -> t0 <> 0 ->
  let w' := run (resetGame t0 w) (guesses (gs4 ++ [(p, t)])) in
  let s := (t - t0) / 1000 in
  localStorage w'
  = (if beats s (getBestSeconds w)
     then <[ BEST_KEY := Js.ToString s ]> (localStorage w)
     else localStorage w) /\
  (localStorage w !! BEST_KEY = None ->
   localStorage w' !! BEST_KEY = Some (Js.ToString s)).
Proof.
  intros Hlen Ht0 w' s.
  assert (localStorage w'
          = (if beats s (getBestSeconds w)
             then <[ BEST_KEY := Js.ToString s ]> (localStorage w)
             else localStorage w)) as Heq.
  { unfold w', guesses. rewrite map_app, run_app.
    fold (guesses gs4). cbn [map run fold_left step fst snd].
    set (w4 := run (resetGame t0 w) (guesses gs4)).
    destruct (resetGame_counters t0 w) as [Hi0 _].
    destruct (run_guesses_counters gs4 (resetGame t0 w)) as [Hi4 _];
      rewrite ?Hi0; unfold TOTAL_QUESTIONS; try lia.
    fold w4 in Hi4. rewrite Hi0, Hlen in Hi4.
    assert (localStorage w4 = localStorage w) as Hl4.
    { unfold w4. rewrite run_guesses_before_last; [reflexivity| |];
        rewrite Hi0; unfold TOTAL_QUESTIONS; lia. }
    assert (startedAtMs w4 = Some t0) as Hs4
      by (unfold w4; now rewrite run_guesses_startedAtMs).
    rewrite handleAnswer_last_storage
      by (rewrite Hi4; unfold TOTAL_QUESTIONS; lia).
    rewrite finishGame_storage, (getBestSeconds_ext w4 w Hl4), Hl4.
    unfold elapsedSeconds. rewrite Hs4.
    destruct (t0 =? 0) eqn:E; [apply Z.eqb_eq in E; contradiction|].
    reflexivity. }
  split; [exact Heq|].
  intros Hnone. rewrite Heq. unfold getBestSeconds. rewrite Hnone.
  cbn [beats]. apply lookup_insert_eq.
Qed.

Lemma round_records_its_duration_witness :
  length (take 4 sample_round) = 4%nat /\ 1000 <> 0 /\
  localStorage
    (run (resetGame 1000 (initial empty))
         (guesses (take 4 sample_round ++ [(point_of 34 (-118), 12500)])))
    !! BEST_KEY = Some (Js.ToString ((12500 - 1000) / 1000)).
Proof.
  split; [reflexivity|]. split; [discriminate|].
  apply (proj2 (round_records_its_duration (initial empty) 1000
                  (take 4 sample_round) (point_of 34 (-118)) 12500
                  eq_refl ltac:(discriminate))).
  reflexivity.
Defined.

(** X14: a stored best time made of white space only is not taken for
    a missing one: it reads as 0, and no round of non-negative duration
    replaces it. *)
Theorem blank_best_reads_as_zero (w : World) (raw : string) :
  localStorage w !! BEST_KEY = Some raw -> raw <> ""%string ->
  all_ws raw = true ->
  getBestSeconds w = Some Js.pos_zero /\
  (forall now, 0 <= elapsedSeconds now w ->
               localStorage (finishGame now w) = localStorage w).
Proof.
  intros Hraw Hne Hws.
  assert (getBestSeconds w = Some Js.pos_zero) as Hb.
  { unfold getBestSeconds. rewrite Hraw.
    destruct raw as [|c r]; [contradiction|]. cbn [String.eqb].
    unfold Js.Number. now rewrite trim_start_all_ws. }
  split; [exact Hb|]. intros now Hs.
  rewrite finishGame_storage, Hb. cbn [beats].
  now rewrite of_Z_nonneg_not_lt_zero.
Qed.

Lemma blank_best_reads_as_zero_witness :
  localStorage (startTimer 1000 (initial {[ BEST_KEY := " "%string ]}))
    !! BEST_KEY = Some " "%string /\
  getBestSeconds (startTimer 1000 (initial {[ BEST_KEY := " "%string ]}))
  = Some Js.pos_zero.
Proof.
  split; [reflexivity|].
  apply (blank_best_reads_as_zero
           (startTimer 1000 (initial {[ BEST_KEY := " "%string ]})) " ");
    [reflexivity | discriminate | reflexivity].
Defined.

(** X15: after a round that took a safe non-negative number of seconds
    a best time is always on record: the elapsed time if there was none
    or it was beaten, the previous one otherwise. *)
Theorem finishGame_leaves_best (now : Z) (w : World) :
  0 <= elapsedSeconds now w <= Js.MAX_SAFE_INTEGER ->
  getBestSeconds (finishGame now w)
  = Some (match getBestSeconds w with
          | Some b =>
              if Js.lt (Js.of_Z (elapsedSeconds now w)) b
              then Js.of_Z (elapsedSeconds now w) else b
          | None => Js.of_Z (elapsedSeconds now w)
          end).
Proof.
  intros Hs. pose proof (finishGame_storage now w) as Hst.
  assert (forall w', localStorage w'
            = <[ BEST_KEY := Js.ToString (elapsedSeconds now w) ]>
                (localStorage w) ->
          getBestSeconds w' = Some (Js.of_Z (elapsedSeconds now w))) as Hw.
  { intros w' Heq. apply getBestSeconds_stored; [exact Hs|].
    rewrite Heq. apply lookup_insert_eq. }
  destruct (getBestSeconds w) as [b|] eqn:Hb; cbn [beats] in Hst.
  - destruct (Js.lt _ b); [now apply Hw|].
    now rewrite (getBestSeconds_ext _ _ Hst).
  - now apply Hw.
Qed.

Lemma finishGame_leaves_best_witness :
  0 <= elapsedSeconds 9500 sample_page <= Js.MAX_SAFE_INTEGER /\
  getBestSeconds (finishGame 9500 sample_page) = Some (Js.of_Z 8).
Proof.
  assert (0 <= elapsedSeconds 9500 sample_page <= Js.MAX_SAFE_INTEGER) as H
    by (change (0 <= 8 <= 9007199254740991); lia).
  split; [exact H|].
  rewrite (finishGame_leaves_best 9500 sample_page H). reflexivity.
Defined.

(** X16: [elapsedSeconds] is 0 while no start time is recorded, and
    also for a round started at clock reading 0; otherwise it is the
    number of whole seconds since the start, and it does not decrease
    as the clock advances. *)
Theorem elapsedSeconds_whole_seconds (now : Z) (w : World) :
  (startedAtMs w = None \/ startedAtMs w = Some 0 ->
   elapsedSeconds now w = 0) /\
  (forall t, startedAtMs w = Some t -> t <> 0 ->
     1000 * elapsedSeconds now w <= now - t
     < 1000 * elapsedSeconds now w + 1000) /\
  (forall later, now <= later ->
     elapsedSeconds now w <= elapsedSeconds later w).
Proof.
  unfold elapsedSeconds. split; [|split].
  - intros [-> | ->]; reflexivity.
  - intros t -> Ht.
    destruct (t =? 0) eqn:E; [apply Z.eqb_eq in E; contradiction|].
    pose proof (Z.div_mod (now - t) 1000 ltac:(lia)) as Hdm.
    pose proof (Z.mod_pos_bound (now - t) 1000 ltac:(lia)) as Hm.
    revert Hdm Hm. generalize ((now - t) / 1000), ((now - t) mod 1000).
    intros q r Hdm Hm. lia.
  - intros later Hle. destruct (startedAtMs w) as [t|]; [|lia].
    destruct (t =? 0); [lia|].
    apply Z.div_le_mono; lia.
Qed.

Lemma elapsedSeconds_whole_seconds_witness :
  startedAtMs sample_page = Some 1000 /\ 1000 <> 0 /\
  1000 * elapsedSeconds 9999 sample_page <= 9999 - 1000
  < 1000 * elapsedSeconds 9999 sample_page + 1000.
Proof.
  split; [reflexivity|]. split; [discriminate|].
  apply (proj1 (proj2 (elapsedSeconds_whole_seconds 9999 sample_page)) 1000);
    [reflexivity | discriminate].
Defined.

(** ** More on [formatTime] *)

Section MoreFormat.

(** The minutes as [formatTime] writes them. *)
Lemma formatTime_shape s : 0 <= s ->
  formatTime s
  = (Js.padStart 2 "0" (Js.digits (s / 60)) ++ ":"
     ++ two_digits (s mod 60))%string.
Proof.
  intros H. unfold formatTime.
  assert (0 <= s / 60) by (apply Z.div_pos; lia).
  assert (0 <= s mod 60 < 60) by (apply Z.mod_pos_bound; lia).
  rewrite Z.rem_mod_nonneg, !ToString_nonneg by lia.
  now rewrite (padStart_two_digits (s mod 60)) by lia.
Qed.

Lemma padStart_digits m : 0 <= m ->
  Js.padStart 2 "0" (Js.digits m)
  = if m <? 100 then two_digits m else Js.digits m.
Proof.
  intros H. destruct (m <? 100) eqn:E.
  - apply Z.ltb_lt in E. now apply padStart_two_digits.
  - apply Z.ltb_ge in E. apply padStart_long.
    pose proof (digits_three m E). lia.
Qed.

Lemma all_digits_two_digits n : 0 <= n < 100 -> all_digits (two_digits n) = true.
Proof.
  intros H. unfold two_digits. cbn [all_digits].
  rewrite !is_digit_digit_char; [reflexivity| |].
  - apply Z.mod_pos_bound; lia.
  - split; [apply Z.div_pos; lia | apply Z.div_lt_upper_bound; lia].
Qed.

Lemma read_two_digits n : 0 <= n < 100 ->
  Js.read_digits 10 (two_digits n) 0 0 = (n, 2, EmptyString).
Proof.
  intros H. unfold two_digits. cbn [Js.read_digits].
  assert (0 <= n / 10 < 10)
    by (split; [apply Z.div_pos; lia | apply Z.div_lt_upper_bound; lia]).
  assert (0 <= n mod 10 < 10) by (apply Z.mod_pos_bound; lia).
  rewrite !digit_val_digit_char by assumption.
  pose proof (Z.div_mod n 10 ltac:(lia)) as Hdm.
  f_equal. f_equal. revert Hdm. generalize (n / 10), (n mod 10).
  intros q r ->. ring.
Qed.

(** The number written by the minutes field is the number of minutes. *)
Lemma read_minutes m : 0 <= m ->
  fst (fst (Js.read_digits 10 (Js.padStart 2 "0" (Js.digits m)) 0 0)) = m.
Proof.
  intros H. rewrite padStart_digits by assumption.
  destruct (m <? 100) eqn:E.
  - apply Z.ltb_lt in E. now rewrite read_two_digits by lia.
  - destruct (read_digits_digits m H) as (k & _ & ->). reflexivity.
Qed.

Lemma all_digits_minutes m : 0 <= m ->
  all_digits (Js.padStart 2 "0" (Js.digits m)) = true.
Proof.
  intros H. rewrite padStart_digits by assumption.
  destruct (m <? 100) eqn:E.
  - apply Z.ltb_lt in E. apply all_digits_two_digits. lia.
  - apply all_digits_digits_of; [assumption | reflexivity].
Qed.

(** Two texts with digits before the colon are equal only part by
    part. *)
Lemma colon_split (m1 : string) : forall m2 s1 s2 : string,
  all_digits m1 = true -> all_digits m2 = true ->
  (m1 ++ ":" ++ s1 = m2 ++ ":" ++ s2)%string -> m1 = m2 /\ s1 = s2.
Proof.
  induction m1 as [|c1 r1 IH]; intros [|c2 r2] s1 s2 H1 H2 Heq;
    cbn [all_digits] in *; simpl in Heq.
  - injection Heq as Heq. now split.
  - injection Heq as Hc _. subst c2. discriminate H2.
  - injection Heq as Hc _. subst c1. discriminate H1.
  - injection Heq as Hc Heq. subst c2.
    apply andb_true_iff in H1 as [_ H1]. apply andb_true_iff in H2 as [_ H2].
    destruct (IH r2 s1 s2 H1 H2 Heq) as [-> ->]. now split.
Qed.

End MoreFormat.

(** X17: [formatTime] writes different texts for different non-negative
    numbers of seconds, and a text of exactly five characters below 100
    minutes. *)
Theorem formatTime_injective (a b : Z) :
  0 <= a -> 0 <= b ->
  (formatTime a = formatTime b -> a = b) /\
  (a < 6000 -> String.length (formatTime a) = 5%nat).
Proof.
  intros Ha Hb.
  assert (0 <= a / 60 /\ 0 <= b / 60) as [Hma Hmb]
    by (split; apply Z.div_pos; lia).
  assert (0 <= a mod 60 < 60 /\ 0 <= b mod 60 < 60) as [Hsa Hsb]
    by (split; apply Z.mod_pos_bound; lia).
  split.
  - rewrite !formatTime_shape by assumption. intros Heq.
    apply colon_split in Heq as [Hm Hs]; try now apply all_digits_minutes.
    assert (a / 60 = b / 60) as Hq
      by (rewrite <- (read_minutes (a / 60)), <- (read_minutes (b / 60)), Hm
            by assumption; reflexivity).
    assert (a mod 60 = b mod 60) as Hr.
    { apply (f_equal (fun t => fst (fst (Js.read_digits 10 t 0 0)))) in Hs.
      now rewrite !read_two_digits in Hs by lia. }
    rewrite (Z.div_mod a 60), (Z.div_mod b 60), Hq, Hr by lia. reflexivity.
  - intros Hlt. rewrite formatTime_shape by assumption.
    assert (a / 60 < 100) by (apply Z.div_lt_upper_bound; lia).
    rewrite padStart_two_digits by lia. reflexivity.
Qed.

Lemma formatTime_injective_witness :
  0 <= 65 /\ 0 <= 125 /\ 65 < 6000 /\
  String.length (formatTime 65) = 5%nat.
Proof.
  split; [lia|]. split; [lia|]. split; [lia|].
  apply (proj2 (formatTime_injective 65 125 ltac:(lia) ltac:(lia))). lia.
Defined.

(** ** The page *)

Section PageFacts.

Implicit Types (p : Ui.Page) (id k : string) (t : Ui.Text).

Lemma world_set_text id t p : Ui.world (Ui.set_text id t p) = Ui.world p.
Proof. unfold Ui.set_text. destruct (_ !! _); reflexivity. Qed.

Lemma listening_set_text id t p :
  Ui.listening (Ui.set_text id t p) = Ui.listening p.
Proof. unfold Ui.set_text. destruct (_ !! _); reflexivity. Qed.

Lemma toast_set_text id t p :
  Ui.toastShown (Ui.set_text id t p) = Ui.toastShown p /\
  Ui.toastPending (Ui.set_text id t p) = Ui.toastPending p.
Proof. unfold Ui.set_text. destruct (_ !! _); split; reflexivity. Qed.

(** A write changes the text of its element, if the document has it,
    and of no other. *)
Lemma dom_set_text id t p k :
  Ui.dom (Ui.set_text id t p) !! k
  = if decide (k = id) then (fun _ => t) <$> Ui.dom p !! k
    else Ui.dom p !! k.
Proof.
  unfold Ui.set_text. destruct (decide (k = id)) as [->|Hne].
  - destruct (Ui.dom p !! id) eqn:E; cbn [Ui.dom].
    + now rewrite lookup_insert_eq.
    + now rewrite E.
  - destruct (Ui.dom p !! id); [|reflexivity].
    cbn [Ui.dom]. now rewrite lookup_insert_ne by congruence.
Qed.

Lemma world_showToast msg p : Ui.world (Ui.showToast msg p) = Ui.world p.
Proof. unfold Ui.showToast. cbn [Ui.world]. apply world_set_text. Qed.

Lemma listening_showToast msg p :
  Ui.listening (Ui.showToast msg p) = Ui.listening p.
Proof. unfold Ui.showToast. cbn [Ui.listening]. apply listening_set_text. Qed.

Lemma dom_showToast msg p k :
  Ui.dom (Ui.showToast msg p) !! k
  = if decide (k = "toast"%string)
    then (fun _ => Ui.Plain msg) <$> Ui.dom p !! k
    else Ui.dom p !! k.
Proof. unfold Ui.showToast. cbn [Ui.dom]. apply dom_set_text. Qed.

Lemma world_finishGame now p :
  Ui.world (Ui.finishGame now p) = finishGame now (Ui.world p).
Proof.
  unfold Ui.finishGame, finishGame. rewrite !world_set_text.
  cbn [Ui.world Ui.on_world].
  destruct (beats _ _);
    rewrite world_showToast; unfold Ui.renderBest;
    rewrite ?world_set_text; reflexivity.
Qed.

Lemma world_resetGame now p :
  Ui.world (Ui.resetGame now p) = resetGame now (Ui.world p).
Proof.
  unfold Ui.resetGame, Ui.setPrompt, Ui.updateHeader, Ui.startTimer.
  rewrite world_showToast, !world_set_text. reflexivity.
Qed.

Lemma world_handleAnswer latLng now p :
  Ui.world (Ui.handleAnswer latLng now p)
  = handleAnswer latLng now (Ui.world p).
Proof.
  unfold Ui.handleAnswer, handleAnswer.
  destruct (location_at (index (Ui.world p))) as [loc|]; [|reflexivity].
  destruct (pointInBounds latLng (bounds loc));
    cbn [Ui.world Ui.on_world]; rewrite !world_showToast;
    cbn [Ui.world Ui.on_world];
    (destruct (_ >=? TOTAL_QUESTIONS);
     [rewrite world_finishGame
     |unfold Ui.setPrompt, Ui.updateHeader; rewrite !world_set_text];
     cbn [Ui.world Ui.on_world]; rewrite ?world_showToast; reflexivity).
Qed.

Lemma listening_finishGame now p :
  Ui.listening (Ui.finishGame now p) = Ui.listening p.
Proof.
  unfold Ui.finishGame. rewrite !listening_set_text.
  destruct (beats _ _); rewrite listening_showToast; unfold Ui.renderBest;
    rewrite ?listening_set_text; reflexivity.
Qed.

Lemma listening_resetGame now p :
  Ui.listening (Ui.resetGame now p) = Ui.listening p.
Proof.
  unfold Ui.resetGame, Ui.setPrompt, Ui.updateHeader, Ui.startTimer.
  rewrite listening_showToast, !listening_set_text. reflexivity.
Qed.

Lemma listening_handleAnswer latLng now p :
  Ui.listening (Ui.handleAnswer latLng now p) = Ui.listening p.
Proof.
  unfold Ui.handleAnswer.
  destruct (location_at (index (Ui.world p))) as [loc|]; [|reflexivity].
  destruct (_ >=? TOTAL_QUESTIONS).
  - rewrite listening_finishGame. cbn [Ui.listening Ui.on_world].
    rewrite listening_showToast. cbn [Ui.listening Ui.on_world].
    destruct (pointInBounds _ _); reflexivity.
  - unfold Ui.setPrompt, Ui.updateHeader. rewrite !listening_set_text.
    cbn [Ui.listening Ui.on_world].
    rewrite listening_showToast. cbn [Ui.listening Ui.on_world].
    destruct (pointInBounds _ _); reflexivity.
Qed.

(** What one event of the page does to the state. *)
Lemma world_dispatch p e :
  Ui.world (Ui.dispatch p e)
  = if Ui.listening p then run (Ui.world p) (user_events [e])
    else Ui.world p.
Proof.
  destruct e as [now|latLng now|now|]; cbn [Ui.dispatch user_events run fold_left step].
  - destruct (Ui.listening p); [apply world_resetGame | reflexivity].
  - destruct (Ui.listening p); [apply world_handleAnswer | reflexivity].
  - destruct (decide _), (Ui.listening p); rewrite ?world_set_text; reflexivity.
  - destruct (Ui.toastPending p), (Ui.listening p); reflexivity.
Qed.

Lemma listening_dispatch p e :
  Ui.listening (Ui.dispatch p e) = Ui.listening p.
Proof.
  destruct e as [now|latLng now|now|]; cbn [Ui.dispatch].
  - destruct (Ui.listening p) eqn:E; [|exact E].
    now rewrite listening_resetGame.
  - destruct (Ui.listening p) eqn:E; [|exact E].
    now rewrite listening_handleAnswer.
  - destruct (decide _); rewrite ?listening_set_text; reflexivity.
  - destruct (Ui.toastPending p); reflexivity.
Qed.

Lemma user_events_app es1 es2 :
  user_events (es1 ++ es2) = user_events es1 ++ user_events es2.
Proof.
  induction es1 as [|[] es1 IH]; cbn [user_events app]; now rewrite ?IH.
Qed.

Lemma world_run es : forall p,
  Ui.listening p = true ->
  Ui.world (Ui.run p es) = run (Ui.world p) (user_events es).
Proof.
  induction es as [|e es IH]; intros p Hl; [reflexivity|].
  cbn [Ui.run fold_left]. fold (Ui.run (Ui.dispatch p e) es).
  rewrite IH by now rewrite listening_dispatch.
  rewrite world_dispatch, Hl.
  change (e :: es) with ([e] ++ es).
  now rewrite user_events_app, run_app.
Qed.

End PageFacts.

Section PageTexts.

Implicit Types (p : Ui.Page) (id k : string) (t : Ui.Text).

Ltac page_simpl :=
  repeat (rewrite ?dom_set_text, ?dom_showToast, ?world_set_text,
            ?world_showToast;
          cbn [Ui.world Ui.dom Ui.on_world Ui.listening]).

Ltac other_key :=
  repeat (case_decide; try discriminate; try contradiction); try reflexivity.

Lemma has_set_text id t p k : has (Ui.set_text id t p) k <-> has p k.
Proof.
  unfold has. rewrite dom_set_text. case_decide; [|reflexivity].
  now rewrite fmap_is_Some.
Qed.

Lemma has_showToast msg p k : has (Ui.showToast msg p) k <-> has p k.
Proof.
  unfold has. rewrite dom_showToast. case_decide; [|reflexivity].
  now rewrite fmap_is_Some.
Qed.

Lemma has_text p k x t :
  Ui.dom p !! k = Some x -> (fun _ => t) <$> Ui.dom p !! k = Some t.
Proof. now intros ->. Qed.

(** The header and the prompt after [updateHeader] and [setPrompt]. *)
Lemma header_sync p :
  has p "qCount" -> has p "score" -> has p "promptText" ->
  let q := Ui.setPrompt (Ui.updateHeader p) in
  Ui.world q = Ui.world p /\
  Ui.dom q !! "qCount"%string
  = Some (Ui.Plain (Js.ToString (index (Ui.world p) + 1) ++ " / 5")%string) /\
  Ui.dom q !! "score"%string
  = Some (Ui.Plain (Js.ToString (correct (Ui.world p)))) /\
  Ui.dom q !! "promptText"%string
  = Some (Ui.Plain (match location_at (index (Ui.world p)) with
                    | Some q => name q
                    | None => "Done"%string
                    end)).
Proof.
  intros [x1 H1] [x2 H2] [x3 H3] q. unfold q, Ui.setPrompt, Ui.updateHeader.
  page_simpl. repeat split; other_key.
  - now rewrite H1.
  - now rewrite H2.
  - now rewrite H3.
Qed.

(** The header and the prompt after [finishGame]. *)
Lemma header_finishGame now p :
  has p "qCount" -> has p "promptText" ->
  let q := Ui.finishGame now p in
  Ui.dom q !! "qCount"%string = Some (Ui.Plain "5 / 5") /\
  Ui.dom q !! "promptText"%string
  = Some (Ui.Plain ("Done. You got " ++ Js.ToString (correct (Ui.world p))
                    ++ " out of 5 correct.")%string) /\
  Ui.dom q !! "score"%string = Ui.dom p !! "score"%string.
Proof.
  intros [x1 H1] [x3 H3] q. unfold q, Ui.finishGame, Ui.renderBest.
  destruct (beats _ _); page_simpl; repeat split; other_key;
    rewrite ?H1, ?H3; reflexivity.
Qed.

Lemma HeaderInv_resetGame now p :
  has p "qCount" -> has p "score" -> has p "promptText" ->
  HeaderInv (Ui.resetGame now p).
Proof.
  intros Hq Hs Hp. unfold HeaderInv. rewrite world_resetGame.
  destruct (resetGame_counters now (Ui.world p)) as [Hi Hc].
  unfold TOTAL_QUESTIONS. rewrite Hi, Hc.
  split; [intros _|lia].
  unfold Ui.resetGame. rewrite !dom_showToast.
  set (p4 := Ui.startTimer now _).
  assert (Ui.world p4 = resetGame now (Ui.world p)) as Hw
    by (unfold p4, Ui.startTimer; now rewrite world_set_text).
  destruct (header_sync p4) as (_ & H1 & H2 & H3);
    try (unfold p4, Ui.startTimer; apply has_set_text; assumption).
  rewrite Hw, ?Hi, ?Hc in H1, H2, H3.
  repeat split; other_key; assumption.
Qed.

Lemma HeaderInv_handleAnswer latLng now p :
  has p "qCount" -> has p "score" -> has p "promptText" ->
  HeaderInv p -> HeaderInv (Ui.handleAnswer latLng now p).
Proof.
  intros Hq Hs Hp Hinv.
  destruct (location_at (index (Ui.world p))) as [loc|] eqn:Hloc;
    [|unfold Ui.handleAnswer; now rewrite Hloc].
  destruct (location_at_Some _ _ Hloc) as [Hr _].
  destruct (proj1 Hinv ltac:(lia)) as (_ & Hscore & _).
  unfold HeaderInv. rewrite world_handleAnswer.
  destruct (handleAnswer_unfold latLng now (Ui.world p) loc Hloc)
    as (w3 & Hha & Hi3 & Hc3 & _ & _ & _ & _ & _ & Hrect & _).
  unfold Ui.handleAnswer. rewrite Hloc.
  set (p4 := Ui.on_world (fun w => set_index (index w + 1) w) _).
  assert (Ui.world p4 = w3 \/ True) as _ by auto.
  assert (index (Ui.world p4) = index (Ui.world p) + 1 /\
          correct (Ui.world p4)
          = correct (Ui.world p)
            + (if pointInBounds latLng (bounds loc) then 1 else 0) /\
          currentRect (Ui.world p4)
          = Some (mkRectangle (normalizeBounds (bounds loc))
                              (pointInBounds latLng (bounds loc))) /\
          handleAnswer latLng now (Ui.world p)
          = (if index (Ui.world p4) >=? TOTAL_QUESTIONS
             then finishGame now (Ui.world p4) else Ui.world p4))
    as (Hi4 & Hc4 & Hr4 & Hha4).
  { unfold p4, handleAnswer. rewrite Hloc.
    destruct (pointInBounds latLng (bounds loc));
      cbn [Ui.world Ui.on_world]; rewrite world_showToast;
      cbn [Ui.world Ui.on_world]; repeat split; try reflexivity;
      cbn [correct index set_index set_correct drawFeedback clearFeedback
           set_feedback]; lia. }
  assert (has p4 "qCount" /\ has p4 "score" /\ has p4 "promptText" /\
          Ui.dom p4 !! "score"%string = Ui.dom p !! "score"%string)
    as (Hq4 & Hs4 & Hp4 & Hsc4).
  { unfold p4, has. cbn [Ui.dom Ui.on_world]. rewrite !dom_showToast.
    destruct (pointInBounds latLng (bounds loc));
      cbn [Ui.dom Ui.on_world]; repeat split; other_key; assumption. }
  rewrite Hha4. destruct (index (Ui.world p4) >=? TOTAL_QUESTIONS) eqn:E.
  - rewrite Z.geb_leb in E. apply Z.leb_le in E.
    destruct (finishGame_state now (Ui.world p4)) as (Hfi & Hfc & _).
    rewrite Hfi, Hfc. split; [lia|]. intros _.
    destruct (header_finishGame now p4 Hq4 Hp4) as (H1 & H2 & H3).
    split; [exact H1|]. split; [exact H2|].
    exists (mkRectangle (normalizeBounds (bounds loc))
                        (pointInBounds latLng (bounds loc))).
    split.
    + unfold finishGame. destruct (beats _ _); exact Hr4.
    + rewrite H3, Hsc4, Hscore, Hc4. cbn [rect_correct].
      do 3 f_equal. destruct (pointInBounds _ _); lia.
  - rewrite Z.geb_leb in E. apply Z.leb_gt in E. split; [intros _|lia].
    destruct (header_sync p4 Hq4 Hs4 Hp4) as (_ & H1 & H2 & H3). auto.
Qed.

Lemma has_run_step p e k : has p k -> has (Ui.dispatch p e) k.
Proof.
  intros H. destruct e as [now|latLng now|now|]; cbn [Ui.dispatch].
  - destruct (Ui.listening p); [|exact H].
    unfold Ui.resetGame, Ui.setPrompt, Ui.updateHeader, Ui.startTimer.
    now rewrite has_showToast, !has_set_text.
  - destruct (Ui.listening p); [|exact H]. unfold Ui.handleAnswer.
    destruct (location_at _) as [loc|]; [|exact H].
    destruct (_ >=? TOTAL_QUESTIONS).
    + unfold Ui.finishGame. rewrite !has_set_text.
      destruct (beats _ _); rewrite has_showToast; unfold Ui.renderBest;
        rewrite ?has_set_text; unfold has; cbn [Ui.dom Ui.on_world];
        apply has_showToast; unfold has; cbn [Ui.dom Ui.on_world];
        destruct (pointInBounds _ _); exact H.
    + unfold Ui.setPrompt, Ui.updateHeader. rewrite !has_set_text.
      unfold has; cbn [Ui.dom Ui.on_world];
        apply has_showToast; unfold has; cbn [Ui.dom Ui.on_world];
        destruct (pointInBounds _ _); exact H.
  - destruct (decide _); [exact H | now apply has_set_text].
  - destruct (Ui.toastPending p); exact H.
Qed.

Lemma HeaderInv_dispatch p e :
  has p "qCount" -> has p "score" -> has p "promptText" ->
  HeaderInv p -> HeaderInv (Ui.dispatch p e).
Proof.
  intros Hq Hs Hp Hinv. destruct e as [now|latLng now|now|]; cbn [Ui.dispatch].
  - destruct (Ui.listening p); [|exact Hinv]. now apply HeaderInv_resetGame.
  - destruct (Ui.listening p); [|exact Hinv]. now apply HeaderInv_handleAnswer.
  - destruct (decide _); [exact Hinv|].
    unfold HeaderInv in *. rewrite world_set_text, !dom_set_text.
    destruct Hinv as [H1 H2]. split; intros Hi.
    + destruct (H1 Hi) as (? & ? & ?). repeat split; other_key; assumption.
    + destruct (H2 Hi) as (? & ? & r & ? & ?).
      repeat split; other_key; try assumption. exists r. split; other_key; assumption.
  - destruct (Ui.toastPending p); exact Hinv.
Qed.

End PageTexts.

Section PageBest.

Implicit Types (p : Ui.Page).

Ltac page_simpl :=
  repeat (rewrite ?dom_set_text, ?dom_showToast, ?world_set_text,
            ?world_showToast;
          cbn [Ui.world Ui.dom Ui.on_world Ui.listening]).

Ltac other_key :=
  repeat (case_decide; try discriminate; try contradiction); try reflexivity.

Lemma BestInv_finishGame now p : BestInv p -> BestInv (Ui.finishGame now p).
Proof.
  unfold BestInv. intros H. rewrite world_finishGame.
  unfold Ui.finishGame, finishGame, Ui.renderBest.
  cbn [Ui.world Ui.on_world].
  change (getBestSeconds (stopTimer (Ui.world p)))
    with (getBestSeconds (Ui.world p)).
  destruct (beats _ _); page_simpl; other_key; rewrite H; reflexivity.
Qed.

Lemma BestInv_resetGame now p : BestInv p -> BestInv (Ui.resetGame now p).
Proof.
  unfold BestInv. intros H. rewrite world_resetGame.
  change (getBestSeconds (resetGame now (Ui.world p)))
    with (getBestSeconds (Ui.world p)).
  unfold Ui.resetGame, Ui.setPrompt, Ui.updateHeader, Ui.startTimer.
  page_simpl; other_key. exact H.
Qed.

Lemma BestInv_handleAnswer latLng now p :
  BestInv p -> BestInv (Ui.handleAnswer latLng now p).
Proof.
  intros H. unfold Ui.handleAnswer.
  destruct (location_at (index (Ui.world p))) as [loc|]; [|exact H].
  set (p4 := Ui.on_world (fun w => set_index (index w + 1) w) _).
  assert (BestInv p4) as H4.
  { unfold BestInv, p4 in *. cbn [Ui.world Ui.dom Ui.on_world].
    rewrite dom_showToast, world_showToast.
    destruct (pointInBounds latLng (bounds loc));
      cbn [Ui.world Ui.dom Ui.on_world]; other_key; exact H. }
  destruct (_ >=? TOTAL_QUESTIONS); [now apply BestInv_finishGame|].
  unfold BestInv, Ui.setPrompt, Ui.updateHeader in *.
  page_simpl; other_key. exact H4.
Qed.

Lemma BestInv_dispatch p e : BestInv p -> BestInv (Ui.dispatch p e).
Proof.
  intros H. destruct e as [now|latLng now|now|]; cbn [Ui.dispatch].
  - destruct (Ui.listening p); [now apply BestInv_resetGame | exact H].
  - destruct (Ui.listening p); [now apply BestInv_handleAnswer | exact H].
  - destruct (decide _); [exact H|].
    unfold BestInv in *. page_simpl; other_key. exact H.
  - destruct (Ui.toastPending p); exact H.
Qed.

Lemma TimerInv_run es : forall w, TimerInv w -> TimerInv (run w es).
Proof.
  induction es as [|e es IH]; intros w H; [exact H|].
  apply IH, TimerInv_step, H.
Qed.

Lemma register_listeners_fields p :
  Ui.listening (Ui.register_listeners p) = true /\
  Ui.world (Ui.register_listeners p) = Ui.world p /\
  Ui.dom (Ui.register_listeners p) = Ui.dom p.
Proof. repeat split. Qed.

(** The page [initMap] leaves when the document has the map container. *)
Lemma initMap_started now p :
  has p "map" ->
  Ui.initMap now p
  = Ui.register_listeners (Ui.resetGame now (Ui.renderBest p)).
Proof.
  intros [x Hmap]. unfold Ui.initMap.
  assert (Ui.dom (Ui.renderBest p) !! "map"%string = Some x) as Hm.
  { unfold Ui.renderBest. rewrite dom_set_text.
    destruct (decide _) as [Heq|_]; [discriminate Heq | exact Hmap]. }
  now rewrite Hm.
Qed.

Lemma initMap_world now ls d :
  has (Ui.loaded ls d) "map" ->
  Ui.listening (Ui.initMap now (Ui.loaded ls d)) = true /\
  Ui.world (Ui.initMap now (Ui.loaded ls d)) = resetGame now (initial ls).
Proof.
  intros Hmap. rewrite (initMap_started now _ Hmap).
  destruct (register_listeners_fields
              (Ui.resetGame now (Ui.renderBest (Ui.loaded ls d))))
    as (Hl & Hw & _).
  rewrite Hl, Hw, world_resetGame. unfold Ui.renderBest.
  rewrite world_set_text. split; reflexivity.
Qed.

End PageBest.

Section PageRuns.

Implicit Types (p q : Ui.Page).

Lemma HeaderInv_ext p q :
  Ui.world p = Ui.world q -> Ui.dom p = Ui.dom q ->
  HeaderInv q -> HeaderInv p.
Proof. unfold HeaderInv. now intros -> ->. Qed.

Lemma BestInv_ext p q :
  Ui.world p = Ui.world q -> Ui.dom p = Ui.dom q -> BestInv q -> BestInv p.
Proof. unfold BestInv. now intros -> ->. Qed.

Lemma has_renderBest p k : has (Ui.renderBest p) k <-> has p k.
Proof. apply has_set_text. Qed.

Lemma has_resetGame now p k : has (Ui.resetGame now p) k <-> has p k.
Proof.
  unfold Ui.resetGame, Ui.setPrompt, Ui.updateHeader, Ui.startTimer.
  rewrite has_showToast, !has_set_text. reflexivity.
Qed.

Lemma BestInv_renderBest p : has p "best" -> BestInv (Ui.renderBest p).
Proof.
  intros [x H]. unfold BestInv, Ui.renderBest.
  rewrite dom_set_text, world_set_text, H.
  destruct (decide _) as [_|Hne]; [reflexivity | contradiction].
Qed.

Lemma HeaderInv_run es : forall p,
  has p "qCount" -> has p "score" -> has p "promptText" ->
  HeaderInv p -> HeaderInv (Ui.run p es).
Proof.
  induction es as [|e es IH]; intros p Hq Hs Hp H; [exact H|].
  cbn [Ui.run fold_left]. fold (Ui.run (Ui.dispatch p e) es).
  apply IH; auto using has_run_step, HeaderInv_dispatch.
Qed.

Lemma BestInv_run es : forall p, BestInv p -> BestInv (Ui.run p es).
Proof.
  induction es as [|e es IH]; intros p H; [exact H|].
  cbn [Ui.run fold_left]. fold (Ui.run (Ui.dispatch p e) es).
  apply IH, BestInv_dispatch, H.
Qed.

Lemma dispatch_dead p e :
  Ui.listening p = false -> intervals (Ui.world p) = empty ->
  Ui.toastPending p = false -> Ui.dispatch p e = p.
Proof.
  intros Hl Hi Ht. destruct e as [now|latLng now|now|]; cbn [Ui.dispatch];
    rewrite ?Hl, ?Ht; try reflexivity.
  destruct (decide _) as [_|Hne]; [reflexivity | contradiction].
Qed.

Lemma run_dead es p :
  Ui.listening p = false -> intervals (Ui.world p) = empty ->
  Ui.toastPending p = false -> Ui.run p es = p.
Proof.
  intros Hl Hi Ht. induction es as [|e es IH]; [reflexivity|].
  cbn [Ui.run fold_left]. now rewrite dispatch_dead.
Qed.

End PageRuns.

(** X18: on a document that has the map container, the state of the
    page after [initMap] and any events is the state the state machine
    reaches from the loaded module on a reset followed by the clicks
    among those events: the writes to the page, the turns of the clock
    and the toast change nothing in it. *)
Theorem page_state_follows_clicks (ls : gmap string string)
    (d : gmap string Ui.Text) (now : Z) (es : list Ui.Event) :
  has (Ui.loaded ls d) "map" ->
  Ui.world (Ui.run (Ui.initMap now (Ui.loaded ls d)) es)
  = run (initial ls) (Reset now :: user_events es).
Proof.
  intros Hmap. destruct (initMap_world now ls d Hmap) as [Hl Hw].
  rewrite world_run, Hw by exact Hl. reflexivity.
Qed.

Lemma page_state_follows_clicks_witness :
  has (Ui.loaded empty sample_document) "map" /\
  Ui.world (Ui.run (Ui.initMap 1000 (Ui.loaded empty sample_document))
                   sample_clicks)
  = run (initial empty) (Reset 1000 :: user_events sample_clicks).
Proof.
  assert (has (Ui.loaded empty sample_document) "map") as H
    by (eexists; reflexivity).
  split; [exact H|].
  apply (page_state_follows_clicks empty sample_document 1000 sample_clicks H).
Defined.

(** X19: on a document without the map container [initMap] only writes
    the best time: no round starts, no listener is registered, and no
    event changes anything afterwards. *)
Theorem page_without_map_is_dead (ls : gmap string string)
    (d : gmap string Ui.Text) (now : Z) (es : list Ui.Event) :
  d !! "map"%string = None ->
  Ui.run (Ui.initMap now (Ui.loaded ls d)) es
  = Ui.renderBest (Ui.loaded ls d).
Proof.
  intros Hmap.
  assert (Ui.initMap now (Ui.loaded ls d) = Ui.renderBest (Ui.loaded ls d))
    as ->.
  { unfold Ui.initMap.
    assert (Ui.dom (Ui.renderBest (Ui.loaded ls d)) !! "map"%string = None)
      as Hm.
    { unfold Ui.renderBest. rewrite dom_set_text.
      destruct (decide _) as [Heq|_]; [discriminate Heq | exact Hmap]. }
    now rewrite Hm. }
  apply run_dead; unfold Ui.renderBest.
  - now rewrite listening_set_text.
  - now rewrite world_set_text.
  - now rewrite (proj2 (toast_set_text _ _ _)).
Qed.

Lemma page_without_map_is_dead_witness :
  mapless_document !! "map"%string = None /\
  Ui.run (Ui.initMap 1000 (Ui.loaded empty mapless_document)) sample_clicks
  = Ui.renderBest (Ui.loaded empty mapless_document).
Proof.
  assert (mapless_document !! "map"%string = None) as H by reflexivity.
  split; [exact H|].
  apply (page_without_map_is_dead empty mapless_document 1000 sample_clicks H).
Defined.

(** X20: on a document that has the map container, the question
    counter, the score and the prompt, these three always show the
    state: while questions are left, the number of the question, the
    score and the name of the location to find; once the round is over,
    "5 / 5" and the closing sentence with the final score, while the
    score field still shows the score before the last answer. *)
Theorem header_shows_state (ls : gmap string string)
    (d : gmap string Ui.Text) (now : Z) (es : list Ui.Event) :
  has (Ui.loaded ls d) "map" -> has (Ui.loaded ls d) "qCount" ->
  has (Ui.loaded ls d) "score" -> has (Ui.loaded ls d) "promptText" ->
  HeaderInv (Ui.run (Ui.initMap now (Ui.loaded ls d)) es).
Proof.
  intros Hmap Hq Hs Hp. rewrite (initMap_started now _ Hmap).
  set (q := Ui.resetGame now (Ui.renderBest (Ui.loaded ls d))).
  destruct (register_listeners_fields q) as (_ & Hw & Hd).
  assert (forall k, has (Ui.loaded ls d) k -> has (Ui.register_listeners q) k)
    as Hhas.
  { intros k Hk. unfold has. rewrite Hd.
    apply has_resetGame, has_renderBest, Hk. }
  apply HeaderInv_run; auto.
  apply (HeaderInv_ext _ q Hw Hd).
  apply HeaderInv_resetGame; now apply has_renderBest.
Qed.

Lemma header_shows_state_witness :
  has (Ui.loaded empty sample_document) "map" /\
  HeaderInv (Ui.run (Ui.initMap 1000 (Ui.loaded empty sample_document))
                    sample_clicks).
Proof.
  assert (forall k, In k ["map"; "qCount"; "score"; "promptText"]%string ->
                    has (Ui.loaded empty sample_document) k) as H
    by (intros k [<-|[<-|[<-|[<-|[]]]]]; eexists; reflexivity).
  split; [apply H; cbn; auto|].
  apply (header_shows_state empty sample_document 1000 sample_clicks);
    apply H; cbn; auto.
Defined.

(** X21: on a document that has the best-time field, after [initMap]
    and any events the field shows the best time that [getBestSeconds]
    reads from the store at that moment. *)
Theorem best_shown_is_best_stored (ls : gmap string string)
    (d : gmap string Ui.Text) (now : Z) (es : list Ui.Event) :
  has (Ui.loaded ls d) "best" ->
  BestInv (Ui.run (Ui.initMap now (Ui.loaded ls d)) es).
Proof.
  intros Hb. apply BestInv_run.
  pose proof (BestInv_renderBest _ Hb) as Hr.
  destruct (d !! "map"%string) as [x|] eqn:Hmap.
  - rewrite initMap_started by (exists x; exact Hmap).
    set (q := Ui.resetGame now (Ui.renderBest (Ui.loaded ls d))).
    destruct (register_listeners_fields q) as (_ & Hw & Hd).
    apply (BestInv_ext _ q Hw Hd). now apply BestInv_resetGame.
  - unfold Ui.initMap.
    assert (Ui.dom (Ui.renderBest (Ui.loaded ls d)) !! "map"%string = None)
      as Hm.
    { unfold Ui.renderBest. rewrite dom_set_text.
      destruct (decide _) as [Heq|_]; [discriminate Heq | exact Hmap]. }
    now rewrite Hm.
Qed.

Lemma best_shown_is_best_stored_witness :
  has (Ui.loaded empty sample_document) "best" /\
  BestInv (Ui.run (Ui.initMap 1000 (Ui.loaded empty sample_document))
                  sample_clicks).
Proof.
  assert (has (Ui.loaded empty sample_document) "best") as H
    by (eexists; reflexivity).
  split; [exact H|].
  apply (best_shown_is_best_stored empty sample_document 1000 sample_clicks H).
Defined.

(** X22: once the round is over the clock on the page stands still: the
    interval has been cleared, and a turn of it changes nothing. *)
Theorem clock_stops_when_finished (ls : gmap string string)
    (d : gmap string Ui.Text) (now : Z) (es : list Ui.Event) (t : Z) :
  has (Ui.loaded ls d) "map" ->
  let p := Ui.run (Ui.initMap now (Ui.loaded ls d)) es in
  phase (Ui.world p) = Finished ->
  Ui.dispatch p (Ui.Tick t) = p.
Proof.
  intros Hmap p Hph.
  destruct (initMap_world now ls d Hmap) as [Hl Hw].
  assert (TimerInv (Ui.world p)) as (Hiv & _ & Hfin).
  { unfold p. rewrite world_run, Hw by exact Hl.
    apply TimerInv_run.
    apply (TimerInv_step (initial ls) (Reset now)), TimerInv_initial. }
  assert (TOTAL_QUESTIONS <= index (Ui.world p)) as Hi.
  { unfold phase in Hph.
    destruct (index (Ui.world p) >=? TOTAL_QUESTIONS) eqn:E.
    - rewrite Z.geb_leb in E. now apply Z.leb_le in E.
    - destruct (startedAtMs (Ui.world p)); discriminate. }
  cbn [Ui.dispatch]. rewrite Hiv, (Hfin Hi).
  destruct (decide _) as [_|Hne]; [reflexivity | contradiction].
Qed.

Lemma clock_stops_when_finished_witness :
  has (Ui.loaded empty sample_document) "map" /\
  phase (Ui.world (Ui.run (Ui.initMap 1000 (Ui.loaded empty sample_document))
                          sample_clicks)) = Finished /\
  Ui.dispatch (Ui.run (Ui.initMap 1000 (Ui.loaded empty sample_document))
                      sample_clicks) (Ui.Tick 13000)
  = Ui.run (Ui.initMap 1000 (Ui.loaded empty sample_document)) sample_clicks.
Proof.
  assert (has (Ui.loaded empty sample_document) "map") as H
    by (eexists; reflexivity).
  assert (phase (Ui.world (Ui.run (Ui.initMap 1000
                                     (Ui.loaded empty sample_document))
                                  sample_clicks)) = Finished) as Hph
    by (vm_compute; reflexivity).
  split; [exact H|]. split; [exact Hph|].
  apply (clock_stops_when_finished empty sample_document 1000 sample_clicks
           13000 H Hph).
Defined.

Section PageToast.

Implicit Types (p q : Ui.Page).

Lemma toast_showToast msg p :
  has p "toast" ->
  Ui.toastShown (Ui.showToast msg p) = true /\
  Ui.toastPending (Ui.showToast msg p) = true /\
  Ui.dom (Ui.showToast msg p) !! "toast"%string = Some (Ui.Plain msg).
Proof.
  intros [x Hx]. split; [|split].
  - unfold Ui.showToast. cbn [Ui.toastShown]. now rewrite Hx.
  - reflexivity.
  - rewrite dom_showToast, Hx.
    destruct (decide _) as [_|Hne]; [reflexivity | contradiction].
Qed.

Lemma toast_set_text_other id t p :
  id <> "toast"%string ->
  Ui.toastShown (Ui.set_text id t p) = Ui.toastShown p /\
  Ui.toastPending (Ui.set_text id t p) = Ui.toastPending p /\
  Ui.dom (Ui.set_text id t p) !! "toast"%string = Ui.dom p !! "toast"%string.
Proof.
  intros Hne. destruct (toast_set_text id t p) as [-> ->].
  rewrite dom_set_text.
  destruct (decide _) as [Heq|_]; [now symmetry in Heq | repeat split].
Qed.

(** The toast that [finishGame] leaves. *)
Lemma toast_finishGame now q :
  has q "toast" ->
  let summary :=
    ("Finished: " ++ Js.ToString (correct (Ui.world q)) ++ "/5 in "
     ++ formatTime (elapsedSeconds now (Ui.world q)))%string in
  Ui.toastShown (Ui.finishGame now q) = true /\
  Ui.toastPending (Ui.finishGame now q) = true /\
  Ui.dom (Ui.finishGame now q) !! "toast"%string
  = Some (Ui.Plain
            (if beats (elapsedSeconds now (Ui.world q))
                      (getBestSeconds (Ui.world q))
             then (summary ++ " (NEW BEST)")%string else summary)).
Proof.
  intros Hq summary. unfold Ui.finishGame. cbv zeta.
  match goal with |- context [Ui.set_text "qCount" ?t ?x] =>
    destruct (toast_set_text_other "qCount" t x ltac:(discriminate))
      as (-> & -> & ->) end.
  match goal with |- context [Ui.set_text "promptText" ?t ?x] =>
    destruct (toast_set_text_other "promptText" t x ltac:(discriminate))
      as (-> & -> & ->) end.
  cbn [Ui.world Ui.on_world].
  change (elapsedSeconds now (stopTimer (Ui.world q)))
    with (elapsedSeconds now (Ui.world q)).
  change (getBestSeconds (stopTimer (Ui.world q)))
    with (getBestSeconds (Ui.world q)).
  change (correct (stopTimer (Ui.world q))) with (correct (Ui.world q)).
  fold summary.
  destruct (beats _ _); apply toast_showToast; unfold Ui.renderBest;
    rewrite ?has_set_text; exact Hq.
Qed.

End PageToast.

(** X23: on a document that has the toast, an answered question leaves
    the toast shown, with one timeout pending to hide it.  Its text is
    the verdict, "Correct!" or "Wrong!", except after the last question:
    there the summary of the round, with the final score, the time of
    the round and the mark of a new best time, takes its place at
    once. *)
Theorem last_verdict_gives_way_to_summary (latLng : LatLng) (now : Z)
    (p : Ui.Page) (loc : Location) :
  has p "toast" -> location_at (index (Ui.world p)) = Some loc ->
  let w := Ui.world p in
  let inside := pointInBounds latLng (bounds loc) in
  let score := correct w + (if inside then 1 else 0) in
  let seconds := elapsedSeconds now w in
  let summary :=
    ("Finished: " ++ Js.ToString score ++ "/5 in " ++ formatTime seconds)%string
  in
  let p' := Ui.handleAnswer latLng now p in
  Ui.toastShown p' = true /\ Ui.toastPending p' = true /\
  Ui.dom p' !! "toast"%string
  = Some (Ui.Plain
            (if index w + 1 >=? TOTAL_QUESTIONS
             then if beats seconds (getBestSeconds w)
                  then (summary ++ " (NEW BEST)")%string else summary
             else if inside then "Correct!"%string else "Wrong!"%string)).
Proof.
  intros Ht Hloc w inside score seconds summary p'.
  unfold p', Ui.handleAnswer. rewrite Hloc. fold w. fold inside.
  set (p1 := if inside then Ui.on_world (set_correct (correct w + 1)) p else p).
  assert (has p1 "toast" /\ correct (Ui.world p1) = score /\
          index (Ui.world p1) = index w /\
          startedAtMs (Ui.world p1) = startedAtMs w /\
          localStorage (Ui.world p1) = localStorage w) as (H1 & Hc & Hi & Hs & Hl).
  { unfold p1, score. destruct inside; repeat split; try exact Ht.
    fold w. lia. }
  clearbody p1.
  set (verdict := if inside then "Correct!"%string else "Wrong!"%string).
  set (p3 := Ui.showToast verdict
               (Ui.on_world (drawFeedback latLng (bounds loc) inside) p1)).
  assert (has (Ui.on_world (drawFeedback latLng (bounds loc) inside) p1)
              "toast") as H2 by exact H1.
  destruct (toast_showToast verdict _ H2) as (Hsh & Hpe & Hdom).
  fold p3 in Hsh, Hpe, Hdom.
  assert (Ui.world p3
          = drawFeedback latLng (bounds loc) inside (Ui.world p1)) as Hw3
    by (unfold p3; now rewrite world_showToast).
  assert (has p3 "toast") as H3 by (unfold p3; now apply has_showToast).
  clearbody p3.
  set (p4 := Ui.on_world (fun w0 => set_index (index w0 + 1) w0) p3).
  assert (index (Ui.world p4) = index w + 1) as Hi4
    by (unfold p4; cbn [Ui.world Ui.on_world set_index index];
        rewrite Hw3; exact (f_equal (fun i => i + 1) Hi)).
  rewrite Hi4. destruct (index w + 1 >=? TOTAL_QUESTIONS).
  - destruct (toast_finishGame now p4 H3) as (-> & -> & ->).
    assert (correct (Ui.world p4) = score) as ->
      by (unfold p4; cbn [Ui.world Ui.on_world set_index correct];
          rewrite Hw3; exact Hc).
    assert (elapsedSeconds now (Ui.world p4) = seconds) as ->
      by (apply elapsedSeconds_ext; unfold p4;
          cbn [Ui.world Ui.on_world set_index startedAtMs];
          rewrite Hw3; exact Hs).
    assert (getBestSeconds (Ui.world p4) = getBestSeconds w) as ->
      by (apply getBestSeconds_ext; unfold p4;
          cbn [Ui.world Ui.on_world set_index localStorage];
          rewrite Hw3; exact Hl).
    repeat split.
  - unfold Ui.setPrompt, Ui.updateHeader.
    repeat match goal with |- context [Ui.set_text ?id ?t ?x] =>
      destruct (toast_set_text_other id t x ltac:(discriminate))
        as (-> & -> & ->) end.
    repeat split; assumption.
Qed.

Lemma last_verdict_gives_way_to_summary_witness :
  Ui.dom (Ui.handleAnswer (point_of 34 (-118)) 12500
            (Ui.run (Ui.initMap 1000 (Ui.loaded empty sample_document))
                    (firstn 7 sample_clicks))) !! "toast"%string
  = Some (Ui.Plain "Finished: 1/5 in 00:11 (NEW BEST)").
Proof.
  set (p := Ui.run (Ui.initMap 1000 (Ui.loaded empty sample_document))
                   (firstn 7 sample_clicks)).
  assert (has p "toast") as Ht by (vm_compute; eexists; reflexivity).
  destruct (location_at (index (Ui.world p))) as [loc|] eqn:Hloc;
    [|vm_compute in Hloc; discriminate Hloc].
  destruct (last_verdict_gives_way_to_summary (point_of 34 (-118)) 12500 p loc
              Ht Hloc) as (_ & _ & ->).
  vm_compute in Hloc. injection Hloc as <-.
  vm_compute. reflexivity.
Defined.
